(** * The text-to-frequency pipeline of app.py

    A shallow embedding of [fetch_web_content], [process_text], the chart
    constructors and [main] of [src/app.py], with the properties of the
    pipeline proved over it.

    Python values are modelled as follows.
    - [str] is a list of Unicode code points ([N]), so that [len] is
      [length] and the regular expression class [[一-龥]] is a
      range test on a code point.
    - a [Counter] / [dict] is an association list in insertion order
      (Python dicts iterate in insertion order, and the order of
      [word_freq.items()] is what [pd.DataFrame] receives).
    - a [DataFrame] with the columns 词汇 and 频率 is the list of its rows.
    - the libraries the program calls ([requests], [BeautifulSoup]'s parser,
      [jieba.lcut], the sorting routine behind [DataFrame.sort_values]) are
      parameters, constrained only by what their documentation promises. *)

From Stdlib Require Import String Ascii.
From Stdlib Require Import List ZArith NArith Lia Bool Arith.
From Stdlib Require Import Permutation Sorting.Sorted.
Import ListNotations.
Local Open Scope list_scope.
Set Warnings "-register-all".

(** ** Python strings *)

Definition char := N.
Definition str := list char.

Fixpoint str_eqb (a b : str) : bool :=
  match a, b with
  | [], [] => true
  | x :: a', y :: b' => N.eqb x y && str_eqb a' b'
  | _, _ => false
  end.

(** Source literals are written as UTF-8 text and decoded to code points. *)
Definition bytes_of (s : string) : list N :=
  map N_of_ascii (list_ascii_of_string s).

Fixpoint utf8_decode (pending : nat) (acc : N) (bs : list N) : str :=
  match bs with
  | [] => []
  | b :: rest =>
    match pending with
    | O =>
      if (b <? 0x80)%N then b :: utf8_decode 0 0%N rest
      else if (b <? 0xE0)%N then utf8_decode 1 (N.land b 0x1F) rest
      else if (b <? 0xF0)%N then utf8_decode 2 (N.land b 0x0F) rest
      else utf8_decode 3 (N.land b 0x07) rest
    | S k =>
      let acc' := (acc * 64 + N.land b 0x3F)%N in
      match k with
      | O => acc' :: utf8_decode 0 0%N rest
      | S _ => utf8_decode k acc' rest
      end
    end
  end.

Definition lit (s : string) : str := utf8_decode 0 0%N (bytes_of s).

(** ** process_text: the token filter *)

(** [stop_words], lines 58-61. *)
Definition stop_words : list str := map lit
  ["的"; "了"; "在"; "是"; "和"; "有"; "也"; "都"; "这"; "个"; "中"; "到"; "为";
   "对"; "与"; "上"; "或"; "等"; "于"; "之"; "而"; "及"; "就"; "但"; "并"; "很";
   "要"; "从"; "以"; "将"; "不"; "我们"; "他们"; "可以"; "一个"; "没有"; "不是";
   "这个"; "就是"; "这样"; "因为"; "所以"; "如果"; "虽然"; "但是"; "而且"; "然后"]%string.

(** The set without its single-character entries. *)
Definition multi_char_stop_words : list str :=
  filter (fun w => (2 <=? length w)%nat) stop_words.

(** [word not in stop_words] is [negb (str_in word stop_words)]. *)
Definition str_in (w : str) (s : list str) : bool := existsb (str_eqb w) s.

(** [chinese_pattern = re.compile(r'[一-龥]')]; [search] succeeds
    when some character of the word lies in the class. *)
Definition chinese_char (c : char) : bool :=
  ((0x4e00 <=? c) && (c <=? 0x9fa5))%N.

Definition chinese_pattern_search (word : str) : bool :=
  existsb chinese_char word.

(** The condition of the [if] inside the loop, lines 68-70, with the
    stopword set as a parameter. *)
Definition keep_word (stop : list str) (word : str) : bool :=
  (2 <=? length word)%nat && negb (str_in word stop) &&
  chinese_pattern_search word.

(** The loop of lines 64-71: [filtered_words] starts empty and each admitted
    word is appended. *)
Definition filter_words (stop : list str) (words : list str) : list str :=
  fold_left
    (fun filtered_words word =>
       if keep_word stop word then filtered_words ++ [word]
       else filtered_words)
    words [].

(** ** process_text: counting *)

Definition entry := (str * Z)%type.
Definition DataFrame := list entry.

(** [c[word] += 1] on an insertion-ordered dict: an existing key keeps its
    position, a new key goes to the end with count 1. *)
Fixpoint counter_incr (word : str) (c : list entry) : list entry :=
  match c with
  | [] => [(word, 1%Z)]
  | (k, v) :: rest =>
    if str_eqb k word then (k, (v + 1)%Z) :: rest
    else (k, v) :: counter_incr word rest
  end.

(** [Counter(iterable)], line 74. *)
Definition Counter (words : list str) : list entry :=
  fold_left (fun c word => counter_incr word c) words [].

(** The dict comprehension of line 77. *)
Definition drop_low_freq (min_freq : Z) (word_freq : list entry) : list entry :=
  filter (fun wf => (min_freq <=? snd wf)%Z) word_freq.

(** [sum(word_freq.values())]. *)
Definition total_count (word_freq : list entry) : Z :=
  fold_right Z.add 0%Z (map snd word_freq).

(** Position of the first occurrence of [w] in a token stream
    ([length l] when it does not occur). *)
Fixpoint first_index (w : str) (l : list str) : nat :=
  match l with
  | [] => O
  | x :: r => if str_eqb x w then O else S (first_index w r)
  end.

Fixpoint count_word (w : str) (l : list str) : Z :=
  match l with
  | [] => 0%Z
  | x :: r => ((if str_eqb x w then 1 else 0) + count_word w r)%Z
  end.

(** ** process_text: ranking *)

(** Rows in non-increasing order of 频率. *)
Definition count_desc (a b : entry) : Prop := (snd b <= snd a)%Z.

(** What a routine called as [sort_values('频率', ascending=False)]
    promises whatever the sorting kind: the rows are those given, ordered by
    the column. *)
Definition sort_contract (sort : list entry -> list entry) : Prop :=
  forall l, Permutation l (sort l) /\ StronglySorted count_desc (sort l).

(** What only the kinds [mergesort] and [stable] promise in addition: rows
    with the same key keep their relative order.  [process_text] leaves the
    kind at its default, [quicksort]. *)
Definition sort_stable (sort : list entry -> list entry) : Prop :=
  forall l c,
    filter (fun e => (snd e =? c)%Z) (sort l) =
    filter (fun e => (snd e =? c)%Z) l.

(** The columns of the frame, as [sort_values] is told them. *)
Inductive column := by_word | by_freq.

Section ProcessText.

(** [jieba.lcut]. *)
Variable lcut : str -> list str.
(** [lambda by, ascending, df:
      df.sort_values(by, ascending=ascending).reset_index(drop=True)]
    on the list of rows, with the sorting kind left at its default. *)
Variable sort_values : column -> bool -> DataFrame -> DataFrame.

Definition filtered_words_with (stop : list str) (text : str) : list str :=
  filter_words stop (lcut text).

Definition process_text_with (stop : list str) (text : str) (min_freq : Z)
  : DataFrame :=
  let words := lcut text in
  let filtered_words := filter_words stop words in
  let word_freq := Counter filtered_words in
  let word_freq := drop_low_freq min_freq word_freq in
  let df := word_freq in
  sort_values by_freq false df.

(** [process_text(text, min_freq)] with the set of lines 58-61. *)
Definition filtered_words (text : str) : list str :=
  filtered_words_with stop_words text.

Definition process_text (text : str) (min_freq : Z) : DataFrame :=
  process_text_with stop_words text min_freq.

End ProcessText.

(** [word_freq[w]] on a [Counter]: the count of a missing key is 0. *)
Definition counter_get (w : str) (c : list entry) : Z :=
  match find (fun e => str_eqb (fst e) w) c with
  | Some e => snd e
  | None => 0%Z
  end.

(** ** A sorting routine that meets the contract of sort_values

    An insertion sort by the column and the direction asked for, which
    keeps rows of equal key in the order of the input: what the kind
    [stable] would do.  It serves to run the pipeline on concrete texts. *)
Fixpoint str_leb (a b : str) : bool :=
  match a, b with
  | [], _ => true
  | _ :: _, [] => false
  | x :: a', y :: b' =>
    if (x <? y)%N then true
    else if (y <? x)%N then false
    else str_leb a' b'
  end.

(** [x] may stay in front of [y]. *)
Definition row_before (col : column) (ascending : bool) (x y : entry)
  : bool :=
  match col, ascending with
  | by_freq, false => (snd y <=? snd x)%Z
  | by_freq, true => (snd x <=? snd y)%Z
  | by_word, false => str_leb (fst y) (fst x)
  | by_word, true => str_leb (fst x) (fst y)
  end.

Arguments row_before : simpl never.

Fixpoint insert_by (before : entry -> entry -> bool) (x : entry)
  (l : list entry) : list entry :=
  match l with
  | [] => [x]
  | y :: r =>
    if before x y then x :: y :: r
    else y :: insert_by before x r
  end.

Definition stable_sort_values (col : column) (ascending : bool)
  (df : DataFrame) : DataFrame :=
  fold_right (insert_by (row_before col ascending)) [] df.

(** A stand-in for the segmenter, to run the pipeline on concrete texts:
    it cuts the text into consecutive two-character tokens. *)
Fixpoint lcut_pairs (text : str) : list str :=
  match text with
  | a :: b :: rest => [a; b] :: lcut_pairs rest
  | [a] => [[a]]
  | [] => []
  end.

(** The tie rule of the specification, for one run: of two rows with the same count, the
    one listed first is the one whose term occurred first among the
    filtered tokens. *)
Definition ties_in_first_occurrence_order
  (tokens : list str) (table : DataFrame) : Prop :=
  forall t1 e1 t2 e2 t3,
    table = t1 ++ e1 :: t2 ++ e2 :: t3 ->
    snd e1 = snd e2 ->
    (first_index (fst e1) tokens < first_index (fst e2) tokens)%nat.

(** ** fetch_web_content: the parsed document *)

(** The subclasses of [NavigableString].  The tree builder of
    [html.parser] gives a string inside [script], [style], [template], [rt]
    or [rp] the class of that container; comments, CDATA sections,
    declarations, doctypes and processing instructions have classes of
    their own. *)
Inductive string_class :=
| CData | Comment | Declaration | Doctype | ProcessingInstruction
| Script | Stylesheet | TemplateString | RubyTextString
| RubyParenthesisString.

(** A node of the tree [BeautifulSoup(markup, 'html.parser')] builds: a
    string of the class [NavigableString] itself, a string of one of its
    subclasses, or a tag.  The soup object itself is a [Tag] named
    [[document]]. *)
Inductive PageElement :=
| NavigableString (s : str)
| SubclassString (cls : string_class) (s : str)
| Tag (name : str) (contents : list PageElement).

Definition is_named (names : list str) (e : PageElement) : bool :=
  match e with
  | Tag name _ => str_in name names
  | _ => false
  end.

(** [soup(names)], that is [soup.find_all(names)]: the descendants that are
    tags of one of the names, in document order. *)
Fixpoint find_all (names : list str) (e : PageElement) : list PageElement :=
  match e with
  | Tag _ contents =>
    flat_map
      (fun c => (if is_named names c then [c] else []) ++ find_all names c)
      contents
  | _ => []
  end.

(** The loop of lines 36-37: every element [find_all] returned is
    decomposed, which detaches it with all it contains; an element nested
    in one already decomposed goes with it. *)
Fixpoint decompose_all (names : list str) (e : PageElement) : PageElement :=
  match e with
  | Tag name contents =>
    Tag name
      (flat_map
         (fun c => if is_named names c then [] else [decompose_all names c])
         contents)
  | _ => e
  end.

(** The classes [get_text] takes from the soup object: its
    [interesting_string_types] are [NavigableString] and [CData], and a
    string counts by its exact class. *)
Definition interesting (cls : string_class) : bool :=
  match cls with
  | CData => true
  | _ => false
  end.

(** [soup.get_text()]: the strings of the tree that are of an interesting
    class, in document order, joined without separator.  Comments are not
    text, nor are the strings inside [template], [rt] and [rp]. *)
Fixpoint get_text (e : PageElement) : str :=
  match e with
  | NavigableString s => s
  | SubclassString cls s => if interesting cls then s else []
  | Tag _ contents => flat_map get_text contents
  end.

(** The strings of a document that are of an interesting class and lie in
    no element of the names, in document order; [inside] says that the
    node lies in such an element. *)
Fixpoint strings_outside (names : list str) (inside : bool) (e : PageElement)
  : list str :=
  match e with
  | NavigableString s => if inside then [] else [s]
  | SubclassString cls s =>
    if inside then [] else if interesting cls then [s] else []
  | Tag _ contents =>
    flat_map
      (fun c => strings_outside names (inside || is_named names c) c)
      contents
  end.

(** ** fetch_web_content: cleaning the text *)

(** The line boundaries of [str.splitlines]. *)
Definition is_linebreak (c : char) : bool :=
  existsb (N.eqb c) [10; 11; 12; 13; 28; 29; 30; 133; 8232; 8233]%N.

(** [cur] holds the current line, reversed.  A final line break does not
    open a new line, and CR LF is one boundary. *)
Fixpoint splitlines_from (cur : str) (s : str) : list str :=
  match s with
  | [] => match cur with [] => [] | _ => [rev cur] end
  | c :: r =>
    if is_linebreak c then
      rev cur ::
      match r with
      | d :: r' =>
        if (c =? 13)%N && (d =? 10)%N then splitlines_from [] r'
        else splitlines_from [] r
      | [] => splitlines_from [] r
      end
    else splitlines_from (c :: cur) r
  end.

Definition splitlines (s : str) : list str := splitlines_from [] s.

(** [str.isspace] on one character. *)
Definition isspace (c : char) : bool :=
  ((9 <=? c) && (c <=? 13) || (28 <=? c) && (c <=? 32) ||
   (c =? 0x85) || (c =? 0xA0) || (c =? 0x1680) ||
   (0x2000 <=? c) && (c <=? 0x200A) ||
   (c =? 0x2028) || (c =? 0x2029) || (c =? 0x202F) || (c =? 0x205F) ||
   (c =? 0x3000))%N.

Fixpoint lstrip (s : str) : str :=
  match s with
  | c :: r => if isspace c then lstrip r else s
  | [] => []
  end.

Definition rstrip (s : str) : str := rev (lstrip (rev s)).

(** [s.strip()]. *)
Definition strip (s : str) : str := rstrip (lstrip s).

Fixpoint starts_with (p s : str) : bool :=
  match p, s with
  | [], _ => true
  | a :: p', b :: s' => (a =? b)%N && starts_with p' s'
  | _ :: _, [] => false
  end.

(** Puts a character in front of the first piece. *)
Definition add_char (c : char) (parts : list str) : list str :=
  match parts with
  | [] => [[c]]
  | p :: ps => (c :: p) :: ps
  end.

(** [s.split(sep)] for a non-empty [sep], scanning from the left; [skip]
    counts the characters of a separator just matched that are still to be
    passed over. *)
Fixpoint split_from (sep : str) (skip : nat) (s : str) : list str :=
  match s with
  | [] => [[]]
  | c :: r =>
    match skip with
    | S k => split_from sep k r
    | O =>
      if starts_with sep s then [] :: split_from sep (length sep - 1) r
      else add_char c (split_from sep 0 r)
    end
  end.

Definition split (sep s : str) : list str := split_from sep 0 s.

(** [sep.join(parts)]. *)
Fixpoint join (sep : str) (parts : list str) : str :=
  match parts with
  | [] => []
  | [p] => p
  | p :: ps => p ++ sep ++ join sep ps
  end.

(** Truth value of a string: it is not empty. *)
Definition nonempty (s : str) : bool :=
  match s with [] => false | _ :: _ => true end.

(** Lines 43-45. *)
Definition clean_text (text : str) : str :=
  let lines := map strip (splitlines text) in
  let chunks :=
    flat_map (fun line => map strip (split (lit "  ") line)) lines in
  join (lit " ") (filter nonempty chunks).

(** *** The cleaning rule as the specification words it

    "split on line boundaries, strip leading/trailing whitespace from each
    line, then split each line on runs of two or more spaces, strip each
    resulting fragment, discard empty fragments, and rejoin all non-empty
    fragments with a single space separator". *)

Definition is_space (c : char) : bool := (c =? 32)%N.

(** Splitting on maximal runs of two or more spaces; [in_run] says that the
    scan is inside such a run. *)
Fixpoint split_runs_from (in_run : bool) (s : str) : list str :=
  match s with
  | [] => [[]]
  | c :: r =>
    if in_run then
      if is_space c then split_runs_from true r
      else add_char c (split_runs_from false r)
    else if is_space c && starts_with [32%N] r
      then [] :: split_runs_from true r
      else add_char c (split_runs_from false r)
  end.

Definition split_space_runs (s : str) : list str := split_runs_from false s.

Definition clean_text_spec (text : str) : str :=
  let lines := map strip (splitlines text) in
  let fragments :=
    flat_map (fun line => map strip (split_space_runs line)) lines in
  join (lit " ") (filter nonempty fragments).

(** Lines 35-45: what [fetch_web_content] makes of a parsed document. *)
Definition hidden_tags : list str := [lit "script"; lit "style"].

Definition extract_text (soup : PageElement) : str :=
  let soup := decompose_all hidden_tags soup in
  let text := get_text soup in
  clean_text text.

(** Two documents that differ only in their [script] and [style] elements:
    at each position the two children are both such elements, whatever they
    contain, or are the same string of the same class, or tags of one name
    whose contents are related in turn. *)
Inductive same_visible : PageElement -> PageElement -> Prop :=
| sv_string s : same_visible (NavigableString s) (NavigableString s)
| sv_subclass cls s :
    same_visible (SubclassString cls s) (SubclassString cls s)
| sv_tag name cs cs' :
    Forall2
      (fun c c' =>
         (is_named hidden_tags c = true /\ is_named hidden_tags c' = true) \/
         same_visible c c')
      cs cs' ->
    same_visible (Tag name cs) (Tag name cs').

(** Raw markup tag syntax: [<], an optional [/], a letter, and a closing
    [>] before any other [<]. *)
Definition is_ascii_letter (c : char) : bool :=
  ((65 <=? c) && (c <=? 90) || (97 <=? c) && (c <=? 122))%N.

Fixpoint closes_tag (s : str) : bool :=
  match s with
  | [] => false
  | c :: r =>
    if (c =? 62)%N then true
    else if (c =? 60)%N then false
    else closes_tag r
  end.

Definition tag_at (s : str) : bool :=
  match s with
  | lt :: c :: r =>
    (lt =? 60)%N &&
    (if is_ascii_letter c then closes_tag r
     else (c =? 47)%N &&
          match r with
          | d :: r' => is_ascii_letter d && closes_tag r'
          | [] => false
          end)
  | _ => false
  end.

Fixpoint has_markup_tag (s : str) : bool :=
  match s with
  | [] => false
  | _ :: r => tag_at s || has_markup_tag r
  end.

(** ** Exceptions and the Streamlit calls *)

(** Where an exception was raised; [str(e)] is its text. *)
Inductive exception_origin := from_fetch | from_parser.

Record Exception := { origin : exception_origin; exc_str : str }.

Inductive result (A : Type) :=
| Return (a : A)
| Raise (e : Exception).
Arguments Return {A} a.
Arguments Raise {A} e.

Definition bind {A B} (r : result A) (k : A -> result B) : result B :=
  match r with
  | Return a => k a
  | Raise e => Raise e
  end.

Notation "x <- r ;; k" := (bind r (fun x => k))
  (at level 61, r at next level, right associativity).

(** [try: body  except Exception as e: handler(e)]. *)
Definition try_except {A} (body : result A) (handler : Exception -> A) : A :=
  match body with
  | Return a => a
  | Raise e => handler e
  end.

(** The charts, by the data they are given; titles and styling options are
    left out. *)
Inductive chart :=
| WordCloud (data_pair : list entry)
| Bar (xaxis : list str) (yaxis : list Z)
| Pie (data_pair : list entry)
| Line (xaxis : list str) (yaxis : list Z)
| Scatter (xaxis : list str) (yaxis : list Z)
| Funnel (data_pair : list entry)
| Radar (schema : list (str * Z)) (data : list Z).

(** The calls to Streamlit that depend on the run, in the order [main]
    makes them; the fixed furniture of the page (titles, captions, the
    usage notes) is left out. *)
Inductive st_call :=
| st_error (body : str)
| st_warning (body : str)
| st_text_area (value : str)
| st_subheader_total (n : nat)
| st_dataframe (data : DataFrame)
| st_metric_total (n : nat)
| st_metric_top_word (word : str)
| st_metric_top_freq (freq : Z)
| st_pyecharts (c : chart)
| st_download_csv (data : DataFrame)
| st_download_text (data : str).

(** ** The ranked view and the charts *)

(** [df.head(n)], that is [df.iloc[:n]]: the first [n] rows, and for a
    negative [n] all rows but the last [-n]. *)
Definition head (n : Z) (df : DataFrame) : DataFrame :=
  if (0 <=? n)%Z then firstn (Z.to_nat n) df
  else firstn (length df - Z.to_nat (- n)) df.

(** The columns [df['词汇']] and [df['频率']]. *)
Definition words_column (df : DataFrame) : list str := map fst df.
Definition freq_column (df : DataFrame) : list Z := map snd df.

(** [d[k] = v] on an insertion-ordered dict, and [dict(pairs)]. *)
Fixpoint dict_set (k : str) (v : Z) (d : list entry) : list entry :=
  match d with
  | [] => [(k, v)]
  | (k', v') :: rest =>
    if str_eqb k' k then (k', v) :: rest
    else (k', v') :: dict_set k v rest
  end.

Definition dict (pairs : list entry) : list entry :=
  fold_left (fun d kv => dict_set (fst kv) (snd kv) d) pairs [].

(** [max(df['频率'])] on a frame that is not empty. *)
Definition max_freq (df : DataFrame) : Z :=
  match freq_column df with
  | [] => 0%Z
  | f :: fs => fold_left Z.max fs f
  end.

Definition create_wordcloud (word_freq_dict : list entry) : chart :=
  WordCloud word_freq_dict.

Definition create_bar_chart (df : DataFrame) (top_n : Z) : chart :=
  let top_df := head top_n df in
  Bar (words_column top_df) (freq_column top_df).

Definition create_pie_chart (df : DataFrame) (top_n : Z) : chart :=
  let top_df := head top_n df in
  Pie (combine (words_column top_df) (freq_column top_df)).

Definition create_line_chart (df : DataFrame) (top_n : Z) : chart :=
  let top_df := head top_n df in
  Line (words_column top_df) (freq_column top_df).

Definition create_scatter_chart (df : DataFrame) (top_n : Z) : chart :=
  let top_df := head top_n df in
  Scatter (words_column top_df) (freq_column top_df).

Definition create_funnel_chart (df : DataFrame) (top_n : Z) : chart :=
  let top_df := head top_n df in
  Funnel (combine (words_column top_df) (freq_column top_df)).

Definition create_radar_chart (df : DataFrame) (top_n : Z) : chart :=
  let top_df := head top_n df in
  let schema := map (fun word => (word, max_freq df)) (words_column top_df) in
  Radar schema (freq_column top_df).

(** The values of [chart_types]. *)
Inductive chart_type := wordcloud | bar | pie | line | scatter | funnel | radar.

(** Lines 335-356 of [main]. *)
Definition make_chart (chart_type : chart_type) (df : DataFrame) (top_n : Z)
  : chart :=
  let top_df := head top_n df in
  let word_freq_dict :=
    dict (combine (words_column top_df) (freq_column top_df)) in
  match chart_type with
  | wordcloud => create_wordcloud word_freq_dict
  | bar => create_bar_chart df top_n
  | pie => create_pie_chart df top_n
  | line => create_line_chart df top_n
  | scatter => create_scatter_chart df top_n
  | funnel => create_funnel_chart df top_n
  | radar => create_radar_chart df (Z.min top_n 10)
  end.

(** What a chart is given: its terms, and its values. *)
Definition chart_words (c : chart) : list str :=
  match c with
  | WordCloud d | Pie d | Funnel d => map fst d
  | Bar x _ | Line x _ | Scatter x _ => x
  | Radar schema _ => map fst schema
  end.

Definition chart_values (c : chart) : list Z :=
  match c with
  | WordCloud d | Pie d | Funnel d => map snd d
  | Bar _ y | Line _ y | Scatter _ y => y
  | Radar _ data => data
  end.

(** *** The frames as objects

    In the program [df] names an object.  Here the objects alive are the
    cells of a store and a name is the place of a cell; [df.head(n)] makes
    a new object, and reading a column writes nothing. *)
Definition frames := list DataFrame.

Definition frame (h : frames) (df : nat) : DataFrame := nth df h [].

Definition head_obj (n : Z) (df : nat) (h : frames) : nat * frames :=
  (length h, h ++ [head n (frame h df)]).

Definition create_bar_chart_obj (df : nat) (top_n : Z) (h : frames)
  : chart * frames :=
  let '(top_df, h) := head_obj top_n df h in
  (Bar (words_column (frame h top_df)) (freq_column (frame h top_df)), h).

Definition create_pie_chart_obj (df : nat) (top_n : Z) (h : frames)
  : chart * frames :=
  let '(top_df, h) := head_obj top_n df h in
  (Pie (combine (words_column (frame h top_df))
          (freq_column (frame h top_df))), h).

Definition create_line_chart_obj (df : nat) (top_n : Z) (h : frames)
  : chart * frames :=
  let '(top_df, h) := head_obj top_n df h in
  (Line (words_column (frame h top_df)) (freq_column (frame h top_df)), h).

Definition create_scatter_chart_obj (df : nat) (top_n : Z) (h : frames)
  : chart * frames :=
  let '(top_df, h) := head_obj top_n df h in
  (Scatter (words_column (frame h top_df)) (freq_column (frame h top_df)), h).

Definition create_funnel_chart_obj (df : nat) (top_n : Z) (h : frames)
  : chart * frames :=
  let '(top_df, h) := head_obj top_n df h in
  (Funnel (combine (words_column (frame h top_df))
             (freq_column (frame h top_df))), h).

Definition create_radar_chart_obj (df : nat) (top_n : Z) (h : frames)
  : chart * frames :=
  let '(top_df, h) := head_obj top_n df h in
  let schema :=
    map (fun word => (word, max_freq (frame h df)))
      (words_column (frame h top_df)) in
  (Radar schema (freq_column (frame h top_df)), h).

(** Lines 335-356 of [main] on objects. *)
Definition make_chart_obj (chart_type : chart_type) (df : nat) (top_n : Z)
  (h : frames) : chart * frames :=
  let '(top_df, h) := head_obj top_n df h in
  let word_freq_dict :=
    dict (combine (words_column (frame h top_df))
            (freq_column (frame h top_df))) in
  match chart_type with
  | wordcloud => (create_wordcloud word_freq_dict, h)
  | bar => create_bar_chart_obj df top_n h
  | pie => create_pie_chart_obj df top_n h
  | line => create_line_chart_obj df top_n h
  | scatter => create_scatter_chart_obj df top_n h
  | funnel => create_funnel_chart_obj df top_n h
  | radar => create_radar_chart_obj df (Z.min top_n 10) h
  end.

(** ** fetch_web_content and main *)

Section App.

(** [requests.get(url, headers=headers, timeout=10)] followed by
    [response.text] under the apparent encoding. *)
Variable requests_get : str -> result str.
(** [BeautifulSoup(markup, 'html.parser')]. *)
Variable BeautifulSoup : str -> result PageElement.
Variable lcut : str -> list str.
Variable sort_values : column -> bool -> DataFrame -> DataFrame.

(** Lines 24-50.  The result is the returned value ([None] is [None]) with
    the Streamlit calls made on the way. *)
Definition fetch_web_content (url : str) : option str * list st_call :=
  try_except
    (response_text <- requests_get url ;;
     soup <- BeautifulSoup response_text ;;
     Return (Some (extract_text soup), []))
    (fun e => (None, [st_error (lit "获取网页内容失败: " ++ exc_str e)])).

(** Lines 313-380: what [main] does with the table. *)
Definition show_table (chart_type : chart_type) (top_n : Z) (text : str)
  (df : DataFrame) : list st_call :=
  match df with
  | top :: _ =>
    [st_subheader_total (length df);
     st_dataframe (head 50 df);
     st_metric_total (length df);
     st_metric_top_word (fst top);
     st_metric_top_freq (snd top);
     st_pyecharts (make_chart chart_type df top_n);
     st_download_csv df;
     st_download_text text]
  | [] =>
    [st_warning
       (lit "未找到足够的词汇数据，请尝试调整低频词过滤设置或使用其他URL。")]
  end.

(** Lines 300-384, for the values of the sidebar and of the URL row.
    [if text:] fails for [None] and for the empty string alike. *)
Definition main (chart_type : chart_type) (min_freq top_n : Z)
  (url : str) (fetch_button : bool) : list st_call :=
  if nonempty url && fetch_button then
    let (text, calls) := fetch_web_content url in
    calls ++
    match text with
    | Some text =>
      if nonempty text then
        st_text_area (firstn 1000 text ++ lit "...") ::
        let df := process_text lcut sort_values text min_freq in
        show_table chart_type top_n text df
      else [st_error (lit "无法获取网页内容，请检查URL是否正确可访问。")]
    | None => [st_error (lit "无法获取网页内容，请检查URL是否正确可访问。")]
    end
  else if fetch_button && negb (nonempty url) then
    [st_warning (lit "请输入URL地址")]
  else [].

End App.

(** ** sort_values as pandas and numpy run it

    [DataFrame.sort_values] on one column computes the row order with
    [nargsort], which hands the keys to [ndarray.argsort(kind='quicksort')];
    for a descending sort it reverses the keys before and the order after.
    The argsort below follows the scalar routine of numpy
    ([npysort/quicksort.cpp], [aquicksort_]): an introsort on an array of
    indices with median-of-three partitions, insertion sort on ranges of at
    most 17 elements, and a depth limit of [2 * floor(log2 n)].  Builds of
    numpy that dispatch argsort to a vectorised routine may order equal keys
    differently. *)

Section Argsort.

Variable K : Type.
(** [a < b] on keys, and a key for reads out of range (there are none). *)
Variable less : K -> K -> bool.
Variable no_key : K.
(** The array of keys [v]. *)
Variable v : list K.

(** [tosort[i]], [tosort[i] = x] and [v[tosort[i]]]. *)
Definition get (tosort : list nat) (i : nat) : nat := nth i tosort O.

Definition set (tosort : list nat) (i x : nat) : list nat :=
  firstn i tosort ++ x :: skipn (S i) tosort.

Definition key (tosort : list nat) (i : nat) : K :=
  nth (get tosort i) v no_key.

(** [INTP_SWAP(tosort[i], tosort[j])]. *)
Definition swap (tosort : list nat) (i j : nat) : list nat :=
  set (set tosort i (get tosort j)) j (get tosort i).

Definition swap_if_less (tosort : list nat) (i j : nat) : list nat :=
  if less (key tosort i) (key tosort j) then swap tosort i j else tosort.

(** [do ++pi; while (v[*pi] < vp)] and [do --pj; while (vp < v[*pj])]. *)
Fixpoint scan_up (fuel : nat) (tosort : list nat) (vp : K) (pi : nat) : nat :=
  match fuel with
  | O => pi
  | S fuel =>
    if less (key tosort (S pi)) vp then scan_up fuel tosort vp (S pi)
    else S pi
  end.

Fixpoint scan_down (fuel : nat) (tosort : list nat) (vp : K) (pj : nat)
  : nat :=
  match fuel with
  | O => pj
  | S fuel =>
    if less vp (key tosort (pj - 1)) then scan_down fuel tosort vp (pj - 1)
    else pj - 1
  end.

(** The [for (;;)] of the partition: it ends with [pi >= pj]. *)
Fixpoint partition_loop (fuel : nat) (tosort : list nat) (vp : K)
  (pi pj : nat) : list nat * nat :=
  match fuel with
  | O => (tosort, pi)
  | S fuel =>
    let pi := scan_up (length tosort) tosort vp pi in
    let pj := scan_down (length tosort) tosort vp pj in
    if pj <=? pi then (tosort, pi)
    else partition_loop fuel (swap tosort pi pj) vp pi pj
  end.

(** One partition of [tosort[pl..pr]]: the new array and the place [pi] of
    the pivot. *)
Definition partition (tosort : list nat) (pl pr : nat) : list nat * nat :=
  let pm := pl + Nat.div2 (pr - pl) in
  let tosort := swap_if_less tosort pm pl in
  let tosort := swap_if_less tosort pr pm in
  let tosort := swap_if_less tosort pm pl in
  let vp := key tosort pm in
  let pi := pl in
  let pj := pr - 1 in
  let tosort := swap tosort pm pj in
  let '(tosort, pi) := partition_loop (length tosort) tosort vp pi pj in
  let pk := pr - 1 in
  (swap tosort pi pk, pi).

(** The inner [while] of the insertion sort, which moves [vi] down from
    [pj] as long as its key is less than the key before. *)
Fixpoint insert_down (fuel : nat) (tosort : list nat) (pl pj vi : nat)
  : list nat :=
  match fuel with
  | O => set tosort pj vi
  | S fuel =>
    if (pl <? pj) && less (nth vi v no_key) (key tosort (pj - 1))
    then insert_down fuel (set tosort pj (get tosort (pj - 1))) pl (pj - 1) vi
    else set tosort pj vi
  end.

Definition insertion_sort_range (tosort : list nat) (pl pr : nat)
  : list nat :=
  fold_left
    (fun tosort pi => insert_down (length tosort) tosort pl pi (get tosort pi))
    (seq (S pl) (pr - pl)) tosort.

(** The outer loop with its stack of ranges and depths.  [at_top] says that
    control is at the head of the outer loop, where alone the depth is
    tested; the heapsort that takes over when the depth is used up is not
    modelled, and the result is [None] there, as when the fuel runs out. *)
Fixpoint aquicksort_loop (fuel : nat) (at_top : bool) (tosort : list nat)
  (pl pr : nat) (cdepth : Z) (stack : list (nat * nat * Z))
  : option (list nat) :=
  match fuel with
  | O => None
  | S fuel =>
    if at_top && (cdepth <? 0)%Z then None
    else if 16 <? pr - pl then
      let '(tosort, pi) := partition tosort pl pr in
      let cdepth := (cdepth - 1)%Z in
      if pi - pl <? pr - pi then
        aquicksort_loop fuel false tosort pl (pi - 1) cdepth
          ((S pi, pr, cdepth) :: stack)
      else
        aquicksort_loop fuel false tosort (S pi) pr cdepth
          ((pl, pi - 1, cdepth) :: stack)
    else
      let tosort := insertion_sort_range tosort pl pr in
      match stack with
      | [] => Some tosort
      | (pl, pr, cdepth) :: stack =>
        aquicksort_loop fuel true tosort pl pr cdepth stack
      end
  end.

(** [v.argsort(kind='quicksort')]. *)
Definition argsort : option (list nat) :=
  let num := length v in
  match num with
  | O => Some []
  | S _ =>
    aquicksort_loop (2 * num + 2) true (seq 0 num) 0 (num - 1)
      (2 * Z.of_nat (Nat.log2 num)) []
  end.

End Argsort.

(** [nargsort(items, kind='quicksort', ascending=ascending)] for keys
    without missing values. *)
Definition nargsort {K} (less : K -> K -> bool) (no_key : K)
  (items : list K) (ascending : bool) : option (list nat) :=
  let idx := seq 0 (length items) in
  let items := if ascending then items else rev items in
  let idx := if ascending then idx else rev idx in
  match argsort K less no_key items with
  | Some order =>
    let indexer := map (fun k => nth k idx O) order in
    Some (if ascending then indexer else rev indexer)
  | None => None
  end.

Definition str_ltb (a b : str) : bool := negb (str_leb b a).

(** [df.sort_values(col, ascending=ascending).reset_index(drop=True)] with
    the default kind; where the argsort is not modelled the rows are left
    as they are. *)
Definition numpy_sort_values (col : column) (ascending : bool)
  (df : DataFrame) : DataFrame :=
  let indexer :=
    match col with
    | by_freq => nargsort Z.ltb 0%Z (freq_column df) ascending
    | by_word => nargsort str_ltb [] (words_column df) ascending
    end in
  match indexer with
  | Some indexer => map (fun i => nth i df ([], 0%Z)) indexer
  | None => df
  end.

(** [jieba.lcut] on a text of dictionary words separated by spaces: each
    word and each space is a token, in the order of the text. *)
Fixpoint lcut_spaces_from (cur : str) (text : str) : list str :=
  match text with
  | [] => match cur with [] => [] | _ => [rev cur] end
  | c :: r =>
    if is_space c then
      match cur with [] => [] | _ => [rev cur] end ++
      [c] :: lcut_spaces_from [] r
    else lcut_spaces_from (c :: cur) r
  end.

Definition lcut_spaces (text : str) : list str := lcut_spaces_from [] text.

(** ** Concrete pages and tables, to run the program on *)

(** Eighteen common words, each once. *)
Definition eighteen_words : str :=
  lit "中国 北京 上海 经济 发展 社会 文化 教育 科学 技术 历史 世界 国家 政府 企业 市场 人民 生活".

(** A table of eleven terms, each occurring once. *)
Definition eleven_terms : DataFrame :=
  process_text lcut_pairs stable_sort_values
    (lit "数据分析可视图表词频统计网页内容文本工具中文") 1.

(** One world, two URLs.  [http://] names no host, and [requests.get]
    raises InvalidURL before anything is sent.  The page at [http://a.cn/]
    ends in a marked section of a kind that [html.parser] does not know,
    and [BeautifulSoup], the only markup it is given being this page,
    raises ParserRejectedMarkup. *)
Definition no_host : Exception :=
  {| origin := from_fetch;
     exc_str := lit "Invalid URL 'http://': No host supplied" |}.

Definition rejected_markup : Exception :=
  {| origin := from_parser;
     exc_str := lit "The markup you provided was rejected by the parser. Trying a different parser or a different encoding may help.

Original exception(s) from parser:
 AssertionError: unknown status keyword 'foo' in marked section" |}.

Definition world_get (url : str) : result str :=
  if str_eqb url (lit "http://") then Raise no_host
  else Return (lit "<p>数据</p><![foo]>").

Definition rejecting_parser (markup : str) : result PageElement :=
  Raise rejected_markup.

(** A page with the text 数据分析数据可视: at threshold 5 no term
    remains. *)
Definition article_get (url : str) : result str :=
  Return (lit "<p>数据分析数据可视</p>").

Definition article_parser (markup : str) : result PageElement :=
  Return (Tag (lit "[document]")
            [Tag (lit "p") [NavigableString (lit "数据分析数据可视")]]).

(** A page whose only content is a script. *)
Definition script_only_get (url : str) : result str :=
  Return (lit "<script>var x = 1;</script>").

Definition script_only_parser (markup : str) : result PageElement :=
  Return (Tag (lit "[document]")
            [Tag (lit "script") [SubclassString Script (lit "var x = 1;")]]).

(** ** Auxiliary notions for the proofs *)

(** What survives of a list of pieces: each stripped, the empty ones
    dropped. *)
Definition kept_chunks (parts : list str) : list str :=
  filter nonempty (map strip parts).

Fixpoint drop_spaces (s : str) : str :=
  match s with
  | c :: r => if is_space c then drop_spaces r else s
  | [] => []
  end.

(** Same first piece, same surviving pieces after it. *)
Definition same_chunks (a b : list str) : Prop :=
  match a, b with
  | h1 :: t1, h2 :: t2 => h1 = h2 /\ kept_chunks t1 = kept_chunks t2
  | _, _ => False
  end.

(** The bound on the number of rows each chart is given: [main] caps it at
    10 for the radar chart. *)
Definition view_bound (chart_type : chart_type) (top_n : Z) : Z :=
  match chart_type with
  | radar => Z.min top_n 10
  | _ => top_n
  end.

(** No whitespace character at the start. *)
Definition starts_clean (s : str) : bool :=
  match s with
  | c :: _ => negb (isspace c)
  | [] => true
  end.

(** A space (U+0020) at the start. *)
Definition starts_space (s : str) : bool :=
  match s with
  | c :: _ => is_space c
  | [] => false
  end.

(** Two consecutive spaces somewhere in the string. *)
Fixpoint has_double_space (s : str) : bool :=
  match s with
  | c :: r => (is_space c && starts_space r) || has_double_space r
  | [] => false
  end.

(** A chunk as [clean_text] joins them: not empty, no whitespace at either
    end, no two consecutive spaces, no line break. *)
Definition tidy (s : str) : Prop :=
  starts_clean s = true /\ starts_clean (rev s) = true /\
  has_double_space s = false /\
  Forall (fun c => is_linebreak c = false) s.

(** * Properties *)

(** ** Strings: basic facts *)

Lemma str_eqb_eq (a b : str) : str_eqb a b = true <-> a = b.
Proof.
  revert b; induction a as [|x a IH]; intros [|y b]; simpl;
    try (split; congruence).
  rewrite andb_true_iff, N.eqb_eq, IH. split.
  - intros [-> ->]; reflexivity.
  - intros H; inversion H; auto.
Qed.

Lemma str_eqb_refl (a : str) : str_eqb a a = true.
Proof. apply str_eqb_eq; reflexivity. Qed.

Lemma str_eqb_neq (a b : str) : str_eqb a b = false <-> a <> b.
Proof.
  rewrite <- str_eqb_eq. destruct (str_eqb a b); split; congruence.
Qed.

Lemma str_eqb_sym (a b : str) : str_eqb a b = str_eqb b a.
Proof.
  destruct (str_eqb a b) eqn:E.
  - apply str_eqb_eq in E; subst; symmetry; apply str_eqb_refl.
  - symmetry; apply str_eqb_neq; apply str_eqb_neq in E; congruence.
Qed.

Lemma str_in_In (w : str) (s : list str) : str_in w s = true <-> In w s.
Proof.
  unfold str_in; rewrite existsb_exists; split.
  - intros (x & Hx & E); apply str_eqb_eq in E; subst; exact Hx.
  - intros H; exists w; split; [exact H | apply str_eqb_refl].
Qed.

Example lit_ascii : lit "script" = [115; 99; 114; 105; 112; 116]%N.
Proof. reflexivity. Qed.

Example lit_cjk : lit "的了" = [0x7684; 0x4e86]%N.
Proof. reflexivity. Qed.

Example stop_words_size : length stop_words = 47%nat.
Proof. reflexivity. Qed.

(** ** The token filter *)

Lemma filter_words_acc (stop : list str) (words acc : list str) :
  fold_left
    (fun filtered_words word =>
       if keep_word stop word then filtered_words ++ [word]
       else filtered_words)
    words acc
  = acc ++ filter (keep_word stop) words.
Proof.
  revert acc; induction words as [|w words IH]; intros acc; simpl.
  - now rewrite app_nil_r.
  - rewrite IH. destruct (keep_word stop w); [|reflexivity].
    now rewrite <- app_assoc.
Qed.

Lemma filter_words_filter (stop : list str) (words : list str) :
  filter_words stop words = filter (keep_word stop) words.
Proof. unfold filter_words; now rewrite filter_words_acc. Qed.

Lemma chinese_pattern_search_spec (word : str) :
  chinese_pattern_search word = true <->
  exists c, In c word /\ (0x4e00 <= c <= 0x9fa5)%N.
Proof.
  unfold chinese_pattern_search, chinese_char.
  rewrite existsb_exists; split; intros (c & Hc & H); exists c; split; auto.
  - apply andb_true_iff in H; destruct H as [H1 H2].
    apply N.leb_le in H1, H2; lia.
  - apply andb_true_iff; split; apply N.leb_le; lia.
Qed.

Lemma keep_word_spec (stop : list str) (word : str) :
  keep_word stop word = true <->
  (2 <= length word)%nat /\ ~ In word stop /\
  exists c, In c word /\ (0x4e00 <= c <= 0x9fa5)%N.
Proof.
  unfold keep_word.
  rewrite !andb_true_iff, negb_true_iff, Nat.leb_le,
    chinese_pattern_search_spec.
  rewrite <- not_true_iff_false, str_in_In. tauto.
Qed.

(** C2. Every token admitted into [filtered_words] has at least two
    characters, is not a stopword and contains a character of
    U+4E00..U+9FA5; a token of the segmentation that fails one of the three
    tests is not admitted; the tokens that pass are kept, in order and with
    their repetitions. *)
Theorem filtered_words_valid (lcut : str -> list str) (text : str) :
  (forall word, In word (filtered_words lcut text) ->
     In word (lcut text) /\
     (2 <= length word)%nat /\ ~ In word stop_words /\
     exists c, In c word /\ (0x4e00 <= c <= 0x9fa5)%N) /\
  (forall word,
     ~ ((2 <= length word)%nat /\ ~ In word stop_words /\
        exists c, In c word /\ (0x4e00 <= c <= 0x9fa5)%N) ->
     ~ In word (filtered_words lcut text)) /\
  filtered_words lcut text = filter (keep_word stop_words) (lcut text).
Proof.
  unfold filtered_words, filtered_words_with.
  rewrite filter_words_filter. split; [|split; [|reflexivity]].
  - intros word H. apply filter_In in H. destruct H as [Hin Hk].
    apply keep_word_spec in Hk. tauto.
  - intros word Hbad Hin. apply filter_In in Hin.
    apply Hbad. now apply keep_word_spec.
Qed.

(** ** Single-character stopwords *)

Lemma keep_word_multi_char (stop : list str) (word : str) :
  keep_word (filter (fun w => (2 <=? length w)%nat) stop) word =
  keep_word stop word.
Proof.
  unfold keep_word. destruct (2 <=? length word)%nat eqn:L; [|reflexivity].
  simpl. f_equal. f_equal.
  apply eq_true_iff_eq. rewrite !str_in_In, filter_In. tauto.
Qed.

Example multi_char_stop_words_size :
  length multi_char_stop_words = 16%nat /\
  length (filter (fun w => (length w =? 1)%nat) stop_words) = 31%nat.
Proof. split; reflexivity. Qed.

(** C10. Removing all single-character entries from the stopword set
    leaves the result of [process_text] unchanged, for every text and every
    threshold: the length test has already rejected every token such an
    entry could match. *)
Theorem process_text_single_char_stop_words
  (lcut : str -> list str) (sort_values : column -> bool -> DataFrame -> DataFrame)
  (text : str) (min_freq : Z) :
  process_text_with lcut sort_values multi_char_stop_words text min_freq =
  process_text lcut sort_values text min_freq.
Proof.
  unfold process_text, process_text_with, multi_char_stop_words.
  rewrite !filter_words_filter.
  do 3 f_equal. apply filter_ext. intros w. apply keep_word_multi_char.
Qed.

(** ** Counting *)

Lemma total_count_incr (word : str) (c : list entry) :
  total_count (counter_incr word c) = (total_count c + 1)%Z.
Proof.
  unfold total_count.
  induction c as [|[k v] c IH]; simpl; [reflexivity|].
  destruct (str_eqb k word); simpl; lia.
Qed.

Lemma total_count_fold (words : list str) (c : list entry) :
  total_count (fold_left (fun c word => counter_incr word c) words c) =
  (total_count c + Z.of_nat (length words))%Z.
Proof.
  revert c; induction words as [|w words IH]; intros c.
  - simpl; lia.
  - cbn [fold_left length]. rewrite IH, total_count_incr. lia.
Qed.

Lemma counter_incr_keys (word : str) (c : list entry) :
  map fst (counter_incr word c) =
  if str_in word (map fst c) then map fst c else map fst c ++ [word].
Proof.
  induction c as [|[k v] c IH]; simpl; [reflexivity|].
  rewrite (str_eqb_sym word k).
  destruct (str_eqb k word); simpl; [reflexivity|].
  rewrite IH. unfold str_in. now destruct (existsb (str_eqb word) (map fst c)).
Qed.

Lemma counter_incr_NoDup (word : str) (c : list entry) :
  NoDup (map fst c) -> NoDup (map fst (counter_incr word c)).
Proof.
  intros H. rewrite counter_incr_keys.
  destruct (str_in word (map fst c)) eqn:E; [exact H|].
  apply NoDup_app; [exact H | repeat constructor; intros [] |].
  intros x Hx [<-|[]].
  apply str_in_In in Hx; congruence.
Qed.

Lemma Counter_fold_NoDup (words : list str) (c : list entry) :
  NoDup (map fst c) ->
  NoDup (map fst (fold_left (fun c word => counter_incr word c) words c)).
Proof.
  revert c; induction words as [|w words IH]; intros c H; simpl; [exact H|].
  apply IH, counter_incr_NoDup, H.
Qed.

Lemma Counter_NoDup (words : list str) : NoDup (map fst (Counter words)).
Proof. apply Counter_fold_NoDup; constructor. Qed.

(** C3. Before the threshold is applied, the counts of the aggregated map
    add up to the number of filtered tokens, and the map has one entry per
    distinct term. *)
Theorem counter_total (lcut : str -> list str) (text : str) :
  total_count (Counter (filtered_words lcut text)) =
  Z.of_nat (length (filtered_words lcut text)) /\
  NoDup (map fst (Counter (filtered_words lcut text))).
Proof.
  split; [|apply Counter_NoDup].
  unfold Counter. rewrite total_count_fold. reflexivity.
Qed.

Lemma counter_get_incr (w word : str) (c : list entry) :
  counter_get w (counter_incr word c) =
  (counter_get w c + if str_eqb word w then 1 else 0)%Z.
Proof.
  unfold counter_get.
  induction c as [|[k v] c IH]; simpl.
  - destruct (str_eqb word w); reflexivity.
  - destruct (str_eqb k word) eqn:E; simpl.
    + apply str_eqb_eq in E; subst k.
      destruct (str_eqb word w); [reflexivity | lia].
    + destruct (str_eqb k w) eqn:F; [|exact IH].
      apply str_eqb_eq in F; subst k.
      rewrite (str_eqb_sym word w), E. simpl; lia.
Qed.

Lemma counter_get_fold (w : str) (words : list str) (c : list entry) :
  counter_get w (fold_left (fun c word => counter_incr word c) words c) =
  (counter_get w c + count_word w words)%Z.
Proof.
  revert c; induction words as [|x words IH]; intros c.
  - simpl; lia.
  - cbn [fold_left count_word]. rewrite IH, counter_get_incr. lia.
Qed.

Lemma counter_get_Counter (w : str) (words : list str) :
  counter_get w (Counter words) = count_word w words.
Proof. unfold Counter. now rewrite counter_get_fold. Qed.

Lemma counter_incr_positive (word : str) (c : list entry) :
  Forall (fun e => (1 <= snd e)%Z) c ->
  Forall (fun e => (1 <= snd e)%Z) (counter_incr word c).
Proof.
  induction 1 as [|[k v] c Hk Hc IH]; simpl.
  - repeat constructor; simpl; lia.
  - destruct (str_eqb k word); constructor; simpl in *; auto; lia.
Qed.

Lemma Counter_positive (words : list str) :
  Forall (fun e => (1 <= snd e)%Z) (Counter words).
Proof.
  unfold Counter. generalize (@Forall_nil entry (fun e => (1 <= snd e)%Z)).
  generalize (@nil entry).
  induction words as [|w words IH]; intros c Hc; simpl; [exact Hc|].
  apply IH, counter_incr_positive, Hc.
Qed.

(** Membership in a dict with distinct keys and positive values is decided
    by lookup. *)
Lemma In_counter_get (w : str) (n : Z) (c : list entry) :
  NoDup (map fst c) -> Forall (fun e => (1 <= snd e)%Z) c ->
  In (w, n) c <-> counter_get w c = n /\ (1 <= n)%Z.
Proof.
  unfold counter_get. intros Hnd Hpos.
  induction c as [|[k v] c IH]; simpl.
  - split; [intros [] | lia].
  - inversion Hnd as [|? ? Hk Hnd']; inversion Hpos as [|? ? Hv Hpos']; subst.
    specialize (IH Hnd' Hpos'). simpl in *.
    destruct (str_eqb k w) eqn:E; simpl.
    + apply str_eqb_eq in E; subst k. split.
      * intros [H|H]; [inversion H; subst; split; auto|].
        exfalso; apply Hk. apply (in_map fst) in H; exact H.
      * intros [-> _]; now left.
    + rewrite <- IH. split; [intros [H|H]; auto | auto].
      inversion H; subst. rewrite str_eqb_refl in E; discriminate.
Qed.

Lemma In_Counter (w : str) (n : Z) (words : list str) :
  In (w, n) (Counter words) <-> n = count_word w words /\ (1 <= n)%Z.
Proof.
  rewrite In_counter_get, counter_get_Counter;
    [| apply Counter_NoDup | apply Counter_positive].
  split; intros [H1 H2]; split; auto.
Qed.

(** ** The stable sorting routine meets the contract *)

Lemma count_desc_trans : Relations_1.Transitive count_desc.
Proof. intros a b c; unfold count_desc; lia. Qed.

Lemma row_before_true (x y : entry) :
  row_before by_freq false x y = true -> count_desc x y.
Proof. unfold row_before, count_desc. rewrite Z.leb_le. lia. Qed.

Lemma row_before_false (x y : entry) :
  row_before by_freq false x y = false -> count_desc y x.
Proof. unfold row_before, count_desc. rewrite Z.leb_gt. lia. Qed.

Lemma insert_by_perm (before : entry -> entry -> bool) (x : entry)
  (l : list entry) :
  Permutation (x :: l) (insert_by before x l).
Proof.
  induction l as [|y r IH]; simpl; [reflexivity|].
  destruct (before x y); [reflexivity|].
  rewrite perm_swap. now constructor.
Qed.

Lemma insert_by_sorted (x : entry) (l : list entry) :
  Sorted count_desc l ->
  Sorted count_desc (insert_by (row_before by_freq false) x l).
Proof.
  induction l as [|y r IH]; simpl; intros H; [repeat constructor|].
  destruct (row_before by_freq false x y) eqn:E.
  - constructor; [exact H|]. constructor. now apply row_before_true in E.
  - inversion H as [|? ? Hr Hy]; subst.
    constructor; [apply IH, Hr|].
    apply row_before_false in E.
    destruct r as [|z r]; simpl; [now constructor|].
    destruct (row_before by_freq false x z); constructor; auto.
    now inversion Hy.
Qed.

Lemma stable_sort_values_contract :
  sort_contract (stable_sort_values by_freq false).
Proof.
  intros l; split.
  - induction l as [|x l IH]; simpl; [constructor|].
    rewrite <- insert_by_perm. now constructor.
  - apply Sorted_StronglySorted; [exact count_desc_trans|].
    induction l as [|x l IH]; simpl; [constructor|].
    now apply insert_by_sorted.
Qed.

Lemma insert_by_stable (x : entry) (l : list entry) (c : Z) :
  filter (fun e => (snd e =? c)%Z) (insert_by (row_before by_freq false) x l) =
  filter (fun e => (snd e =? c)%Z) (x :: l).
Proof.
  induction l as [|y r IH]; [reflexivity|].
  cbn [insert_by]. destruct (row_before by_freq false x y) eqn:E;
    [reflexivity|].
  apply Z.leb_gt in E.
  cbn [filter] in *. rewrite IH.
  destruct (snd x =? c)%Z eqn:Ex; [|reflexivity].
  apply Z.eqb_eq in Ex.
  destruct (snd y =? c)%Z eqn:Ey; [|reflexivity].
  apply Z.eqb_eq in Ey. lia.
Qed.

Lemma stable_sort_values_stable :
  sort_stable (stable_sort_values by_freq false).
Proof.
  intros l c. induction l as [|x l IH]; [reflexivity|].
  unfold stable_sort_values in *. cbn [fold_right].
  rewrite insert_by_stable. cbn [filter]. now rewrite IH.
Qed.

(** ** Order of the keys of a Counter *)

Lemma StronglySorted_snoc {A} (R : A -> A -> Prop) (l : list A) (a : A) :
  StronglySorted R l -> Forall (fun x => R x a) l ->
  StronglySorted R (l ++ [a]).
Proof.
  induction 1 as [|x l Hl IH Hx]; intros Ha; simpl.
  - repeat constructor.
  - inversion Ha; subst. constructor; [auto|].
    apply Forall_app; split; [exact Hx | now repeat constructor].
Qed.

Lemma StronglySorted_weaken {A} (R R' : A -> A -> Prop) (l : list A) :
  (forall x y, In x l -> In y l -> R x y -> R' x y) ->
  StronglySorted R l -> StronglySorted R' l.
Proof.
  intros HR H. induction H as [|x l Hl IH Hx]; constructor.
  - apply IH. intros; apply HR; simpl; auto.
  - rewrite Forall_forall in *. intros y Hy.
    apply HR; simpl; auto.
Qed.

Lemma StronglySorted_filter {A} (R : A -> A -> Prop) (p : A -> bool)
  (l : list A) :
  StronglySorted R l -> StronglySorted R (filter p l).
Proof.
  induction 1 as [|x l Hl IH Hx]; simpl; [constructor|].
  destruct (p x); [|exact IH]. constructor; [exact IH|].
  rewrite Forall_forall in *. intros y Hy.
  apply filter_In in Hy. apply Hx, Hy.
Qed.

Lemma StronglySorted_map_inv {A B} (f : A -> B) (R : B -> B -> Prop)
  (l : list A) :
  StronglySorted R (map f l) ->
  StronglySorted (fun x y => R (f x) (f y)) l.
Proof.
  induction l as [|x l IH]; simpl; intros H; [constructor|].
  inversion H as [|? ? Hl Hx]; subst. constructor; [auto|].
  rewrite Forall_forall in *. intros y Hy. apply Hx, in_map, Hy.
Qed.

Lemma StronglySorted_between {A} (R : A -> A -> Prop)
  (l1 l2 l3 : list A) (a b : A) :
  StronglySorted R (l1 ++ a :: l2 ++ b :: l3) -> R a b.
Proof.
  induction l1 as [|x l1 IH]; simpl; intros H.
  - inversion H as [|? ? _ Ha]; subst.
    rewrite Forall_forall in Ha. apply Ha, in_or_app; right; now left.
  - inversion H; auto.
Qed.

Lemma first_index_app_In (w x : str) (l : list str) :
  In w l -> first_index w (l ++ [x]) = first_index w l.
Proof.
  induction l as [|y l IH]; simpl; [intros []|].
  intros H. destruct (str_eqb y w) eqn:E; [reflexivity|].
  f_equal. apply IH. destruct H as [->|H]; [|exact H].
  rewrite str_eqb_refl in E; discriminate.
Qed.

Lemma first_index_In_lt (w : str) (l : list str) :
  In w l -> (first_index w l < length l)%nat.
Proof.
  induction l as [|y l IH]; simpl; [intros []|].
  intros H. destruct (str_eqb y w) eqn:E; [lia|].
  apply -> Nat.succ_lt_mono. apply IH. destruct H as [->|H]; [|exact H].
  rewrite str_eqb_refl in E; discriminate.
Qed.

Lemma first_index_app_new (w : str) (l : list str) :
  ~ In w l -> first_index w (l ++ [w]) = length l.
Proof.
  induction l as [|y l IH]; simpl; intros H.
  - now rewrite str_eqb_refl.
  - destruct (str_eqb y w) eqn:E.
    + apply str_eqb_eq in E; subst; tauto.
    + f_equal; apply IH; tauto.
Qed.

Lemma Counter_snoc (words : list str) (w : str) :
  Counter (words ++ [w]) = counter_incr w (Counter words).
Proof. unfold Counter. now rewrite fold_left_app. Qed.

Lemma Counter_keys_In (words : list str) (w : str) :
  In w (map fst (Counter words)) <-> In w words.
Proof.
  revert w.
  induction words as [|x words IH] using rev_ind; intros w; [simpl; tauto|].
  rewrite Counter_snoc, counter_incr_keys, in_app_iff.
  destruct (str_in x (map fst (Counter words))) eqn:E.
  - apply str_in_In in E. rewrite IH in *. simpl.
    split; [tauto | intros [H|[<-|[]]]]; auto.
  - rewrite in_app_iff, IH. reflexivity.
Qed.

(** The keys of a [Counter] are listed by first occurrence. *)
Lemma Counter_keys_order (words : list str) :
  StronglySorted
    (fun k1 k2 => (first_index k1 words < first_index k2 words)%nat)
    (map fst (Counter words)).
Proof.
  induction words as [|x words IH] using rev_ind; [constructor|].
  assert (Hold : StronglySorted
    (fun k1 k2 =>
       (first_index k1 (words ++ [x]) < first_index k2 (words ++ [x]))%nat)
    (map fst (Counter words))).
  { revert IH. apply StronglySorted_weaken. intros a b Ha Hb Hab.
    apply -> Counter_keys_In in Ha. apply -> Counter_keys_In in Hb.
    now rewrite !first_index_app_In by assumption. }
  rewrite Counter_snoc, counter_incr_keys.
  destruct (str_in x (map fst (Counter words))) eqn:E; [exact Hold|].
  apply StronglySorted_snoc; [exact Hold|].
  assert (Hx : ~ In x words).
  { rewrite <- Counter_keys_In, <- str_in_In. congruence. }
  rewrite Forall_forall. intros k Hk. apply -> Counter_keys_In in Hk.
  rewrite first_index_app_In, first_index_app_new by assumption.
  now apply first_index_In_lt.
Qed.

(** ** The ranked table *)

Lemma NoDup_keys_filter (p : entry -> bool) (c : list entry) :
  NoDup (map fst c) -> NoDup (map fst (filter p c)).
Proof.
  induction c as [|e c IH]; simpl; intros H; [constructor|].
  inversion H as [|? ? He Hc]; subst.
  destruct (p e); simpl; [|auto].
  constructor; [|auto].
  intros Hin. apply He. apply in_map_iff in Hin.
  destruct Hin as (e' & Heq & Hin). apply filter_In in Hin.
  rewrite <- Heq. apply in_map, Hin.
Qed.

Lemma filter_between {A} (p : A -> bool) (t1 t2 t3 : list A) (e1 e2 : A) :
  p e1 = true -> p e2 = true ->
  filter p (t1 ++ e1 :: t2 ++ e2 :: t3) =
  filter p t1 ++ e1 :: filter p t2 ++ e2 :: filter p t3.
Proof.
  intros H1 H2. rewrite filter_app. cbn [filter]. rewrite H1.
  rewrite filter_app. cbn [filter]. now rewrite H2.
Qed.

Lemma Counter_entries_order (words : list str) :
  StronglySorted
    (fun e1 e2 =>
       (first_index (fst e1) words < first_index (fst e2) words)%nat)
    (Counter words).
Proof.
  apply (StronglySorted_map_inv fst
    (fun k1 k2 => (first_index k1 words < first_index k2 words)%nat)).
  apply Counter_keys_order.
Qed.

(** C1, as the code has it. When the routine behind [sort_values] sorts by
    频率 in descending order, the table of [process_text] holds the counted
    terms that reach the threshold, each once, in non-increasing order of
    count; when that routine is moreover stable, two rows of equal count
    are listed in the order in which their terms first occurred among the
    filtered tokens. *)
Theorem process_text_ranked
  (lcut : str -> list str)
  (sort_values : column -> bool -> DataFrame -> DataFrame)
  (text : str) (min_freq : Z) :
  sort_contract (sort_values by_freq false) ->
  Permutation
    (drop_low_freq min_freq (Counter (filtered_words lcut text)))
    (process_text lcut sort_values text min_freq) /\
  StronglySorted count_desc (process_text lcut sort_values text min_freq) /\
  (sort_stable (sort_values by_freq false) ->
   ties_in_first_occurrence_order
     (filtered_words lcut text)
     (process_text lcut sort_values text min_freq)).
Proof.
  intros Hsort. unfold process_text, process_text_with.
  fold (filtered_words_with lcut stop_words text).
  fold (filtered_words lcut text).
  set (tokens := filtered_words lcut text).
  split; [apply Hsort|]. split; [apply Hsort|].
  intros Hstable t1 e1 t2 e2 t3 Htable Hties.
  pose proof (Hstable (drop_low_freq min_freq (Counter tokens)) (snd e1))
    as Hfilter.
  rewrite Htable, filter_between in Hfilter;
    [| apply Z.eqb_refl | rewrite Hties; apply Z.eqb_refl].
  eapply StronglySorted_between with (R := fun a b =>
    (first_index (fst a) tokens < first_index (fst b) tokens)%nat).
  rewrite Hfilter. unfold drop_low_freq.
  apply StronglySorted_filter, StronglySorted_filter.
  apply Counter_entries_order.
Qed.

Lemma process_text_ranked_witness :
  Permutation
    (drop_low_freq 1
       (Counter (filtered_words lcut_pairs (lit "数据分析数据可视"))))
    (process_text lcut_pairs stable_sort_values (lit "数据分析数据可视") 1) /\
  StronglySorted count_desc
    (process_text lcut_pairs stable_sort_values (lit "数据分析数据可视") 1) /\
  ties_in_first_occurrence_order
    (filtered_words lcut_pairs (lit "数据分析数据可视"))
    (process_text lcut_pairs stable_sort_values (lit "数据分析数据可视") 1).
Proof.
  destruct (process_text_ranked lcut_pairs stable_sort_values
              (lit "数据分析数据可视") 1 stable_sort_values_contract)
    as (Hrows & Hsorted & Hties).
  split; [exact Hrows|].
  split; [exact Hsorted | exact (Hties stable_sort_values_stable)].
Defined.

Example process_text_stable_run :
  process_text lcut_pairs stable_sort_values (lit "数据分析数据可视") 1 =
  [(lit "数据", 2%Z); (lit "分析", 1%Z); (lit "可视", 1%Z)].
Proof. vm_compute. reflexivity. Qed.

(** A page of eighteen common words, each once, with [sort_values] as
    pandas and numpy run it: all counts are 1, and the table lists 人民,
    the seventeenth term, third, before the fifteen terms from 上海 to
    市场 that occurred before it. *)
Lemma process_text_ties_not_stable :
  filtered_words lcut_spaces eighteen_words =
    map lit ["中国"; "北京"; "上海"; "经济"; "发展"; "社会"; "文化"; "教育";
             "科学"; "技术"; "历史"; "世界"; "国家"; "政府"; "企业"; "市场";
             "人民"; "生活"]%string /\
  map fst (process_text lcut_spaces numpy_sort_values eighteen_words 1) =
    map lit ["中国"; "北京"; "人民"; "市场"; "企业"; "政府"; "国家"; "世界";
             "历史"; "技术"; "科学"; "教育"; "文化"; "社会"; "发展"; "经济";
             "上海"; "生活"]%string /\
  Forall (fun row => snd row = 1%Z)
    (process_text lcut_spaces numpy_sort_values eighteen_words 1) /\
  ~ ties_in_first_occurrence_order
      (filtered_words lcut_spaces eighteen_words)
      (process_text lcut_spaces numpy_sort_values eighteen_words 1).
Proof.
  split; [vm_compute; reflexivity|].
  split; [vm_compute; reflexivity|].
  split; [vm_compute; repeat constructor|].
  intros H.
  assert (Htable :
    exists t3,
      process_text lcut_spaces numpy_sort_values eighteen_words 1 =
      [(lit "中国", 1%Z); (lit "北京", 1%Z)] ++
      (lit "人民", 1%Z) :: [] ++ (lit "市场", 1%Z) :: t3).
  { eexists. vm_compute. reflexivity. }
  destruct Htable as [t3 Htable].
  specialize (H _ _ _ _ _ Htable eq_refl).
  vm_compute in H. lia.
Qed.

Lemma process_text_NoDup
  (lcut : str -> list str) (sort_values : column -> bool -> DataFrame -> DataFrame)
  (text : str) (min_freq : Z) :
  sort_contract (sort_values by_freq false) ->
  NoDup (map fst (process_text lcut sort_values text min_freq)).
Proof.
  intros Hsort. unfold process_text, process_text_with.
  destruct (Hsort (drop_low_freq min_freq
              (Counter (filter_words stop_words (lcut text))))) as [Hperm _].
  apply (Permutation_NoDup (Permutation_map fst Hperm)).
  apply NoDup_keys_filter, Counter_NoDup.
Qed.

(** C7. For a threshold of at least 1, the table holds exactly the distinct
    terms that occur at least [min_freq] times among the filtered tokens,
    each once and with its number of occurrences. *)
Theorem process_text_threshold
  (lcut : str -> list str) (sort_values : column -> bool -> DataFrame -> DataFrame)
  (text : str) (min_freq : Z) :
  sort_contract (sort_values by_freq false) ->
  (1 <= min_freq)%Z ->
  (forall term n,
     In (term, n) (process_text lcut sort_values text min_freq) <->
     n = count_word term (filtered_words lcut text) /\ (min_freq <= n)%Z) /\
  NoDup (map fst (process_text lcut sort_values text min_freq)).
Proof.
  intros Hsort Hmin.
  split; [|now apply process_text_NoDup].
  unfold process_text, process_text_with.
  fold (filtered_words_with lcut stop_words text).
  fold (filtered_words lcut text).
  set (tokens := filtered_words lcut text).
  destruct (Hsort (drop_low_freq min_freq (Counter tokens))) as [Hperm _].
  intros term n. split.
  - intros H. apply (Permutation_in _ (Permutation_sym Hperm)) in H.
    apply filter_In in H. destruct H as [H Hn]. apply In_Counter in H.
    simpl in Hn. apply Z.leb_le in Hn. tauto.
  - intros [Hn Hge]. apply (Permutation_in _ Hperm).
    apply filter_In. split.
    + apply In_Counter. split; [exact Hn | lia].
    + simpl. now apply Z.leb_le.
Qed.

Lemma process_text_threshold_witness :
  (forall term n,
     In (term, n)
        (process_text lcut_pairs stable_sort_values (lit "数据分析数据可视") 2) <->
     n = count_word term (filtered_words lcut_pairs (lit "数据分析数据可视"))
     /\ (2 <= n)%Z) /\
  NoDup (map fst
    (process_text lcut_pairs stable_sort_values (lit "数据分析数据可视") 2)).
Proof.
  apply (process_text_threshold lcut_pairs stable_sort_values
           (lit "数据分析数据可视") 2 stable_sort_values_contract).
  lia.
Defined.

Example process_text_threshold_run :
  process_text lcut_pairs stable_sort_values (lit "数据分析数据可视") 2 =
  [(lit "数据", 2%Z)].
Proof. vm_compute. reflexivity. Qed.

(** ** Cleaning: splitting on two spaces against splitting on runs *)

Lemma two_spaces : lit "  " = [32; 32]%N.
Proof. reflexivity. Qed.

Lemma split_two_match (r : str) :
  split_from [32; 32]%N 0 (32 :: 32 :: r)%N = [] :: split_from [32; 32]%N 0 r.
Proof. reflexivity. Qed.

Lemma split_two_other (c : char) (r : str) :
  is_space c && starts_with [32%N] r = false ->
  split_from [32; 32]%N 0 (c :: r) = add_char c (split_from [32; 32]%N 0 r).
Proof.
  intros H. cbn [split_from].
  replace (starts_with [32; 32]%N (c :: r)) with false; [reflexivity|].
  symmetry. rewrite <- H. unfold is_space. cbn [starts_with].
  rewrite (N.eqb_sym 32 c). reflexivity.
Qed.

Lemma split_two_cons (r : str) :
  exists h t, split_from [32; 32]%N 0 r = h :: t.
Proof.
  assert (H : forall n (s : str), (length s <= n)%nat ->
            exists h t, split_from [32; 32]%N 0 s = h :: t).
  { induction n as [|n IH]; intros [|c s] Hlen; simpl in Hlen;
      try (exists [], []; reflexivity); try lia.
    destruct (is_space c && starts_with [32%N] s) eqn:E.
    - apply andb_true_iff in E. destruct E as [Ec Es].
      apply N.eqb_eq in Ec; subst c.
      destruct s as [|d s]; [discriminate|]. cbn [starts_with] in Es.
      rewrite andb_true_r in Es. apply N.eqb_eq in Es; subst d.
      rewrite split_two_match. eexists; eexists; reflexivity.
    - rewrite split_two_other by exact E.
      destruct (IH s) as (h & t & ->); [lia|].
      eexists; eexists; reflexivity. }
  apply (H (length r)); lia.
Qed.

Lemma lstrip_space (s : str) : lstrip (32%N :: s) = lstrip s.
Proof. reflexivity. Qed.

Lemma strip_space (s : str) : strip (32%N :: s) = strip s.
Proof. unfold strip. now rewrite lstrip_space. Qed.

Lemma kept_chunks_add_space (parts : list str) :
  parts <> [] -> kept_chunks (add_char 32%N parts) = kept_chunks parts.
Proof.
  destruct parts as [|h t]; [congruence|]. intros _.
  unfold kept_chunks. cbn [add_char map]. now rewrite strip_space.
Qed.

Lemma kept_chunks_empty_first (parts : list str) :
  kept_chunks ([] :: parts) = kept_chunks parts.
Proof. reflexivity. Qed.

Lemma drop_spaces_length (s : str) : (length (drop_spaces s) <= length s)%nat.
Proof.
  induction s as [|c s IH]; simpl; [lia|].
  destruct (is_space c); simpl; lia.
Qed.

(** Leading spaces leave no trace in what [split("  ")] contributes. *)
Lemma kept_chunks_split_drop_spaces (s : str) :
  kept_chunks (split_from [32; 32]%N 0 (drop_spaces s)) =
  kept_chunks (split_from [32; 32]%N 0 s).
Proof.
  assert (H : forall n (s : str), (length s <= n)%nat ->
            kept_chunks (split_from [32; 32]%N 0 (drop_spaces s)) =
            kept_chunks (split_from [32; 32]%N 0 s)).
  { clear s. induction n as [|n IH]; intros [|c s] Hlen; simpl in Hlen;
      try reflexivity; try lia.
    cbn [drop_spaces]. destruct (is_space c) eqn:Ec; [|reflexivity].
    apply N.eqb_eq in Ec; subst c.
    destruct s as [|d s]; [reflexivity|].
    destruct (is_space d) eqn:Ed.
    - apply N.eqb_eq in Ed; subst d. cbn [drop_spaces is_space N.eqb].
      simpl (Pos.eqb _ _). cbv iota.
      rewrite split_two_match, kept_chunks_empty_first.
      apply IH. simpl in Hlen. lia.
    - rewrite (split_two_other 32%N (d :: s)).
      + destruct (split_two_cons (d :: s)) as (h & t & Hs).
        rewrite kept_chunks_add_space by (rewrite Hs; discriminate).
        apply IH. simpl in *; lia.
      + cbn [starts_with]. unfold is_space in Ed.
        rewrite (N.eqb_sym 32 d), Ed. reflexivity. }
  apply (H (length s)); lia.
Qed.

Lemma split_runs_in_run (s : str) :
  split_runs_from true s = split_runs_from false (drop_spaces s).
Proof.
  induction s as [|c s IH]; [reflexivity|].
  cbn [split_runs_from drop_spaces].
  destruct (is_space c) eqn:Ec; [exact IH|].
  cbn [split_runs_from]. now rewrite Ec.
Qed.

Lemma same_chunks_add_char (c : char) (a b : list str) :
  same_chunks a b -> same_chunks (add_char c a) (add_char c b).
Proof.
  destruct a as [|h1 t1], b as [|h2 t2]; simpl; try tauto.
  intros [-> H]; auto.
Qed.

Lemma same_chunks_kept (a b : list str) :
  same_chunks a b -> kept_chunks a = kept_chunks b.
Proof.
  destruct a as [|h1 t1], b as [|h2 t2]; simpl; try tauto.
  intros [-> H]. unfold kept_chunks in *. cbn [map filter].
  now rewrite H.
Qed.

(** On every line, the pieces of [split("  ")] and the pieces between runs
    of two or more spaces have the same first piece and the same surviving
    pieces after it. *)
Lemma split_two_runs (s : str) :
  same_chunks (split (lit "  ") s) (split_space_runs s).
Proof.
  unfold split, split_space_runs. rewrite two_spaces.
  assert (H : forall n (s : str), (length s <= n)%nat ->
            same_chunks (split_from [32; 32]%N 0 s) (split_runs_from false s)).
  { clear s. induction n as [|n IH]; intros [|c s] Hlen; simpl in Hlen;
      try (now split); try lia.
    cbn [split_runs_from].
    destruct (is_space c && starts_with [32%N] s) eqn:E.
    - apply andb_true_iff in E. destruct E as [Ec Es].
      apply N.eqb_eq in Ec; subst c.
      destruct s as [|d s]; [discriminate|]. cbn [starts_with] in Es.
      rewrite andb_true_r in Es. apply N.eqb_eq in Es; subst d.
      rewrite split_two_match. split; [reflexivity|].
      change (split_runs_from true (32%N :: s))
        with (split_runs_from true s).
      rewrite split_runs_in_run, <- kept_chunks_split_drop_spaces.
      apply same_chunks_kept, IH.
      pose proof (drop_spaces_length s). simpl in Hlen. lia.
    - rewrite split_two_other by exact E.
      apply same_chunks_add_char, IH. lia. }
  apply (H (length s)); lia.
Qed.

Lemma filter_flat_map_ext {A B} (p : B -> bool) (f g : A -> list B)
  (l : list A) :
  (forall a, filter p (f a) = filter p (g a)) ->
  filter p (flat_map f l) = filter p (flat_map g l).
Proof.
  intros H. induction l as [|a l IH]; simpl; [reflexivity|].
  now rewrite !filter_app, H, IH.
Qed.

(** C5. The cleaning of lines 43-45, which splits each stripped line on the
    literal of two spaces, gives for every text the same string as the
    rule that splits on runs of two or more spaces. *)
Theorem clean_text_refines_spec (text : str) :
  clean_text text = clean_text_spec text.
Proof.
  unfold clean_text, clean_text_spec. f_equal.
  apply filter_flat_map_ext. intros line.
  apply (same_chunks_kept _ _ (split_two_runs line)).
Qed.

Example clean_text_run :
  clean_text (lit " a   b      c d
  e  ") = lit "a b c d e" /\
  map (split (lit "  ")) [lit "a   b"; lit "a    b"] =
    [[lit "a"; lit " b"]; [lit "a"; lit ""; lit "b"]] /\
  map split_space_runs [lit "a   b"; lit "a    b"] =
    [[lit "a"; lit "b"]; [lit "a"; lit "b"]].
Proof. repeat split; vm_compute; reflexivity. Qed.

(** ** The parsed document *)

(** Induction on a document, with the hypothesis for every child. *)
Fixpoint PageElement_induction (P : PageElement -> Prop)
  (Hstring : forall s, P (NavigableString s))
  (Hsubclass : forall cls s, P (SubclassString cls s))
  (Htag : forall name contents, Forall P contents -> P (Tag name contents))
  (e : PageElement) : P e :=
  match e with
  | NavigableString s => Hstring s
  | SubclassString cls s => Hsubclass cls s
  | Tag name contents =>
    Htag name contents
      ((fix children (l : list PageElement) : Forall P l :=
          match l with
          | [] => Forall_nil P
          | c :: r =>
            Forall_cons c
              (PageElement_induction P Hstring Hsubclass Htag c)
              (children r)
          end) contents)
  end.

(** After the loop of lines 36-37 no element of the names is left. *)
Lemma find_all_decompose_all (names : list str) (e : PageElement) :
  find_all names (decompose_all names e) = [].
Proof.
  induction e as [s|cls s|name contents IH] using PageElement_induction;
    try reflexivity.
  cbn [decompose_all find_all].
  induction IH as [|c r Hc _ IHr]; [reflexivity|].
  cbn [flat_map]. destruct (is_named names c) eqn:E; [exact IHr|].
  cbn [app flat_map]. rewrite IHr, Hc, !app_nil_r.
  destruct c as [s|s|n cs]; try reflexivity.
  cbn [decompose_all is_named] in *. now rewrite E.
Qed.

(** A document without elements of the names is left as it is. *)
Lemma decompose_all_nothing_found (names : list str) (e : PageElement) :
  find_all names e = [] -> decompose_all names e = e.
Proof.
  induction e as [s|cls s|name contents IH] using PageElement_induction;
    try reflexivity.
  cbn [decompose_all find_all]. intros H. f_equal.
  induction IH as [|c r Hc _ IHr]; [reflexivity|].
  cbn [flat_map] in *. apply app_eq_nil in H. destruct H as [H Hr].
  apply app_eq_nil in H. destruct H as [Hn Hfc].
  destruct (is_named names c); [discriminate|].
  cbn [app]. now rewrite Hc, IHr.
Qed.

Lemma same_visible_named (e e' : PageElement) :
  same_visible e e' -> is_named hidden_tags e = is_named hidden_tags e'.
Proof. intros H; inversion H; reflexivity. Qed.

(** The text of a document does not depend on what its [script] and
    [style] elements contain. *)
Lemma get_text_same_visible (soup soup' : PageElement) :
  same_visible soup soup' ->
  get_text (decompose_all hidden_tags soup) =
  get_text (decompose_all hidden_tags soup').
Proof.
  revert soup'.
  induction soup as [s|cls s|name contents IH] using PageElement_induction;
    intros soup' H; inversion H as [| |? ? cs' Hcs]; subst; try reflexivity.
  cbn [decompose_all get_text].
  induction Hcs as [|c c' r r' Hcc' Hrr' IHr]; [reflexivity|].
  inversion IH as [|? ? Hc Hr]; subst.
  cbn [flat_map]. rewrite !flat_map_app.
  rewrite (IHr Hr) by (constructor; exact Hrr').
  f_equal. destruct Hcc' as [[-> ->]|Hcc']; [reflexivity|].
  rewrite <- (same_visible_named _ _ Hcc').
  destruct (is_named hidden_tags c); [reflexivity|].
  cbn [flat_map]. now rewrite (Hc _ Hcc').
Qed.

Lemma strings_outside_inside (names : list str) (e : PageElement) :
  strings_outside names true e = [].
Proof.
  induction e as [s|cls s|name contents IH] using PageElement_induction;
    try reflexivity.
  cbn [strings_outside orb].
  induction IH as [|c r Hc _ IHr]; [reflexivity|].
  cbn [flat_map]. now rewrite Hc, IHr.
Qed.

(** What [get_text] finds after the loop of lines 36-37 are the strings
    outside the removed elements. *)
Lemma get_text_decompose_all (names : list str) (e : PageElement) :
  get_text (decompose_all names e) = concat (strings_outside names false e).
Proof.
  induction e as [s|cls s|name contents IH] using PageElement_induction.
  - simpl. now rewrite app_nil_r.
  - simpl. destruct (interesting cls); simpl; now rewrite ?app_nil_r.
  - cbn [decompose_all get_text strings_outside orb].
    induction IH as [|c r Hc _ IHr]; [reflexivity|].
    cbn [flat_map]. rewrite flat_map_app, concat_app, IHr. f_equal.
    destruct (is_named names c).
    + now rewrite strings_outside_inside.
    + cbn [flat_map]. now rewrite app_nil_r.
Qed.

(** C6, as the code has it. Every [script] and [style] element is removed,
    with all it contains, before the text is taken: the tree handed to
    [get_text] has none left; the text returned is the cleaned
    concatenation of the strings that [get_text] takes and that lie outside
    those elements, in document order; and it is the same for two documents
    that differ only in such elements. *)
Theorem script_style_removed (soup soup' : PageElement) :
  same_visible soup soup' ->
  find_all hidden_tags (decompose_all hidden_tags soup) = [] /\
  extract_text soup =
    clean_text (concat (strings_outside hidden_tags false soup)) /\
  extract_text soup = extract_text soup'.
Proof.
  intros H. split; [apply find_all_decompose_all|].
  unfold extract_text. split.
  - now rewrite get_text_decompose_all.
  - now rewrite (get_text_same_visible _ _ H).
Qed.

Lemma script_style_removed_witness :
  find_all hidden_tags
    (decompose_all hidden_tags
       (Tag (lit "[document]")
          [Tag (lit "p") [NavigableString (lit "数据分析")];
           Tag (lit "script") [SubclassString Script (lit "var x = 1;")]]))
    = [] /\
  extract_text
    (Tag (lit "[document]")
       [Tag (lit "p") [NavigableString (lit "数据分析")];
        Tag (lit "script") [SubclassString Script (lit "var x = 1;")]]) =
  clean_text
    (concat
       (strings_outside hidden_tags false
          (Tag (lit "[document]")
             [Tag (lit "p") [NavigableString (lit "数据分析")];
              Tag (lit "script")
                [SubclassString Script (lit "var x = 1;")]]))) /\
  extract_text
    (Tag (lit "[document]")
       [Tag (lit "p") [NavigableString (lit "数据分析")];
        Tag (lit "script") [SubclassString Script (lit "var x = 1;")]]) =
  extract_text
    (Tag (lit "[document]")
       [Tag (lit "p") [NavigableString (lit "数据分析")];
        Tag (lit "style")
          [SubclassString Stylesheet (lit "p { color: red }")]]).
Proof.
  apply script_style_removed.
  apply sv_tag. constructor.
  - right. apply sv_tag. constructor; [|constructor].
    right. apply sv_string.
  - constructor; [|constructor]. left. split; reflexivity.
Defined.

(** The document that [html.parser] builds for
    [<p>&lt;b&gt;bold&lt;/b&gt;</p>] has one string, [<b>bold</b>]; it has
    no [script] or [style] element and its text is that string. *)
Lemma extract_text_keeps_tag_like_text :
  find_all hidden_tags
    (Tag (lit "[document]")
       [Tag (lit "p") [NavigableString (lit "<b>bold</b>")]]) = [] /\
  extract_text
    (Tag (lit "[document]")
       [Tag (lit "p") [NavigableString (lit "<b>bold</b>")]]) =
    lit "<b>bold</b>" /\
  has_markup_tag
    (extract_text
       (Tag (lit "[document]")
          [Tag (lit "p") [NavigableString (lit "<b>bold</b>")]])) = true.
Proof. repeat split; vm_compute; reflexivity. Qed.

(** Strings inside [template], [rt] and [rp], and comments, are in the
    tree and are not text. *)
Example extract_text_skips_template :
  extract_text
    (Tag (lit "[document]")
       [NavigableString (lit "ab");
        Tag (lit "template") [SubclassString TemplateString (lit "hidden")];
        NavigableString (lit "cd");
        Tag (lit "ruby")
          [Tag (lit "rp") [SubclassString RubyParenthesisString (lit "(")];
           Tag (lit "rt") [SubclassString RubyTextString (lit "ef")]];
        SubclassString Comment (lit "note")]) = lit "abcd".
Proof. vm_compute. reflexivity. Qed.

(** ** The ranked view *)

Lemma head_firstn (n : Z) (df : DataFrame) :
  (0 <= n)%Z ->
  head n df = firstn (Z.to_nat (Z.min n (Z.of_nat (length df)))) df.
Proof.
  intros Hn. unfold head.
  replace (0 <=? n)%Z with true by (symmetry; now apply Z.leb_le).
  destruct (Z.le_ge_cases n (Z.of_nat (length df))) as [H|H].
  - now rewrite Z.min_l.
  - rewrite Z.min_r, Nat2Z.id, firstn_all by exact H.
    apply firstn_all2. lia.
Qed.

Lemma combine_columns (df : DataFrame) :
  combine (words_column df) (freq_column df) = df.
Proof.
  unfold words_column, freq_column.
  induction df as [|[w f] df IH]; simpl; [reflexivity|]. now rewrite IH.
Qed.

Lemma dict_set_new (k : str) (v : Z) (d : list entry) :
  ~ In k (map fst d) -> dict_set k v d = d ++ [(k, v)].
Proof.
  induction d as [|[k' v'] d IH]; simpl; intros H; [reflexivity|].
  destruct (str_eqb k' k) eqn:E.
  - apply str_eqb_eq in E; subst; tauto.
  - rewrite IH; tauto.
Qed.

Lemma dict_fold_distinct (pairs d : list entry) :
  NoDup (map fst (d ++ pairs)) ->
  fold_left (fun d kv => dict_set (fst kv) (snd kv) d) pairs d = d ++ pairs.
Proof.
  revert d; induction pairs as [|[k v] pairs IH]; intros d H; simpl.
  - now rewrite app_nil_r.
  - assert (Hk : ~ In k (map fst d)).
    { rewrite map_app in H. simpl in H.
      apply NoDup_remove_2 in H. rewrite in_app_iff in H. tauto. }
    rewrite dict_set_new by exact Hk.
    rewrite IH; rewrite <- app_assoc; [reflexivity | exact H].
Qed.

(** A table with one row per term is the dict of its own rows. *)
Lemma dict_distinct (pairs : list entry) :
  NoDup (map fst pairs) -> dict pairs = pairs.
Proof. intros H. unfold dict. now rewrite dict_fold_distinct. Qed.

Lemma NoDup_keys_firstn (k : nat) (df : DataFrame) :
  NoDup (map fst df) -> NoDup (map fst (firstn k df)).
Proof.
  intros H. rewrite <- (firstn_skipn k df), map_app in H.
  now apply NoDup_app_remove_r in H.
Qed.

Lemma radar_schema_words (m : Z) (ws : list str) :
  map fst (map (fun word : str => (word, m)) ws) = ws.
Proof. rewrite map_map. simpl. apply map_id. Qed.

Lemma head_firstn_some (n : Z) (df : DataFrame) :
  exists k, head n df = firstn k df.
Proof. unfold head. destruct (0 <=? n)%Z; eexists; reflexivity. Qed.

Lemma NoDup_keys_head (n : Z) (df : DataFrame) :
  NoDup (map fst df) -> NoDup (map fst (head n df)).
Proof.
  destruct (head_firstn_some n df) as [k ->]. apply NoDup_keys_firstn.
Qed.

(** What each chart is given, for every [top_n]: the columns of
    [df.head] at the bound of its type. *)
Lemma make_chart_columns (chart_type : chart_type) (df : DataFrame)
  (top_n : Z) :
  NoDup (words_column df) ->
  chart_words (make_chart chart_type df top_n) =
    words_column (head (view_bound chart_type top_n) df) /\
  chart_values (make_chart chart_type df top_n) =
    freq_column (head (view_bound chart_type top_n) df).
Proof.
  intros Hdf.
  destruct chart_type; cbn [make_chart view_bound chart_words chart_values
    create_wordcloud create_bar_chart create_pie_chart create_line_chart
    create_scatter_chart create_funnel_chart create_radar_chart];
    rewrite ?combine_columns, ?radar_schema_words;
    try (split; reflexivity).
  rewrite dict_distinct by (now apply NoDup_keys_head).
  split; reflexivity.
Qed.

Lemma frame_old (h fresh : frames) (df : nat) :
  (df < length h)%nat -> frame (h ++ fresh) df = frame h df.
Proof. intros H. unfold frame. now apply app_nth1. Qed.

Lemma frame_new (h : frames) (x : DataFrame) (fresh : frames) :
  frame (h ++ x :: fresh) (length h) = x.
Proof. unfold frame. apply nth_middle. Qed.

(** On objects, the chart is the one computed from the table that [df]
    names, and the store has only grown. *)
Lemma make_chart_obj_pure (chart_type : chart_type) (df : nat) (top_n : Z)
  (h : frames) :
  (df < length h)%nat ->
  fst (make_chart_obj chart_type df top_n h) =
    make_chart chart_type (frame h df) top_n /\
  exists fresh, snd (make_chart_obj chart_type df top_n h) = h ++ fresh.
Proof.
  intros Hdf.
  assert (Hold : forall x, frame (h ++ [x]) df = frame h df)
    by (intros x; now apply frame_old).
  assert (Hlen : forall x, (df < length (h ++ [x]))%nat)
    by (intros x; rewrite length_app; simpl; lia).
  destruct chart_type; cbn [make_chart_obj make_chart head_obj
    create_bar_chart_obj create_pie_chart_obj create_line_chart_obj
    create_scatter_chart_obj create_funnel_chart_obj create_radar_chart_obj
    create_wordcloud create_bar_chart create_pie_chart create_line_chart
    create_scatter_chart create_funnel_chart create_radar_chart fst snd];
    rewrite ?frame_new, ?Hold;
    try (split; [reflexivity | eexists; rewrite <- app_assoc; reflexivity]).
  - split; [reflexivity | eexists; reflexivity].
  - rewrite (frame_old _ _ _ (Hlen _)), Hold.
    split; [reflexivity | eexists; rewrite <- app_assoc; reflexivity].
Qed.

(** C9, as the code has it. For a table with one row per term and a
    non-negative [top_n], the terms and the values a chart is given are
    those of the first [min(top_n, |table|)] rows of the table in their
    order, for the radar chart of the first [min(top_n, 10, |table|)];
    building the chart writes to no frame that existed before, the table
    among them. *)
Theorem chart_view_first_rows
  (chart_type : chart_type) (h : frames) (df : nat) (top_n : Z) :
  (df < length h)%nat ->
  (0 <= top_n)%Z ->
  NoDup (words_column (frame h df)) ->
  chart_words (fst (make_chart_obj chart_type df top_n h)) =
    words_column
      (firstn
         (Z.to_nat (Z.min (view_bound chart_type top_n)
                      (Z.of_nat (length (frame h df)))))
         (frame h df)) /\
  chart_values (fst (make_chart_obj chart_type df top_n h)) =
    freq_column
      (firstn
         (Z.to_nat (Z.min (view_bound chart_type top_n)
                      (Z.of_nat (length (frame h df)))))
         (frame h df)) /\
  (forall r, (r < length h)%nat ->
     frame (snd (make_chart_obj chart_type df top_n h)) r = frame h r) /\
  fst (make_chart_obj chart_type df top_n h) =
    make_chart chart_type (frame h df) top_n.
Proof.
  intros Hdf Hn Hnodup.
  destruct (make_chart_obj_pure chart_type df top_n h Hdf)
    as [Hpure [fresh Hstore]].
  destruct (make_chart_columns chart_type (frame h df) top_n Hnodup)
    as [Hwords Hvalues].
  assert (Hb : (0 <= view_bound chart_type top_n)%Z)
    by (destruct chart_type; simpl; lia).
  rewrite <- (head_firstn _ _ Hb), Hpure.
  repeat split; try assumption.
  intros r Hr. rewrite Hstore. now apply frame_old.
Qed.

Lemma chart_view_first_rows_witness :
  chart_words
    (fst (make_chart_obj bar 0 2
            [[(lit "数据", 3%Z); (lit "分析", 2%Z); (lit "图表", 1%Z)]])) =
    [lit "数据"; lit "分析"] /\
  chart_values
    (fst (make_chart_obj bar 0 2
            [[(lit "数据", 3%Z); (lit "分析", 2%Z); (lit "图表", 1%Z)]])) =
    [3%Z; 2%Z] /\
  frame
    (snd (make_chart_obj bar 0 2
            [[(lit "数据", 3%Z); (lit "分析", 2%Z); (lit "图表", 1%Z)]])) 0 =
    [(lit "数据", 3%Z); (lit "分析", 2%Z); (lit "图表", 1%Z)].
Proof.
  destruct (chart_view_first_rows bar
              [[(lit "数据", 3%Z); (lit "分析", 2%Z); (lit "图表", 1%Z)]]
              0 2) as (Hwords & Hvalues & Hstore & _).
  - simpl; lia.
  - lia.
  - vm_compute. repeat constructor; simpl; intuition discriminate.
  - split; [exact Hwords|]. split; [exact Hvalues|].
    apply (Hstore 0%nat). simpl; lia.
Defined.

(** With [top_n = 20] and a table of eleven rows the radar chart is given
    ten terms and ten values, not those of the first [min(20, 11)] rows. *)
Lemma radar_chart_view_capped :
  NoDup (words_column eleven_terms) /\
  length eleven_terms = 11%nat /\
  length (chart_words (fst (make_chart_obj radar 0 20 [eleven_terms]))) =
    10%nat /\
  length (chart_values (fst (make_chart_obj radar 0 20 [eleven_terms]))) =
    10%nat /\
  chart_words (fst (make_chart_obj radar 0 20 [eleven_terms])) <>
    words_column
      (firstn (Z.to_nat (Z.min 20 (Z.of_nat (length eleven_terms))))
         eleven_terms).
Proof.
  assert (Hlen : length (chart_words
                   (fst (make_chart_obj radar 0 20 [eleven_terms])))
                 = 10%nat) by (vm_compute; reflexivity).
  split; [|split; [vm_compute; reflexivity | split; [exact Hlen|]]].
  - apply process_text_NoDup, stable_sort_values_contract.
  - split; [vm_compute; reflexivity|].
    intros H. rewrite H in Hlen. vm_compute in Hlen. discriminate.
Qed.

(** ** Failures of fetch_web_content *)

Section Failures.

Variable requests_get : str -> result str.
Variable BeautifulSoup : str -> result PageElement.

Lemma fetch_web_content_raise (url : str) (e : Exception) :
  requests_get url = Raise e \/
  (exists markup,
     requests_get url = Return markup /\ BeautifulSoup markup = Raise e) ->
  fetch_web_content requests_get BeautifulSoup url =
  (None, [st_error (lit "获取网页内容失败: " ++ exc_str e)]).
Proof.
  unfold fetch_web_content.
  intros [H|(markup & H & Hparse)]; rewrite H; simpl;
    [|rewrite Hparse]; reflexivity.
Qed.

End Failures.

(** C4, as the code has it. A failure of the parser and a failure of the
    fetch are caught by the one handler: in both cases
    [fetch_web_content] reports the text of the exception under the same
    heading and returns [None], and [main] then reports that the page could
    not be fetched. *)
Theorem fetch_web_content_failure
  (requests_get : str -> result str)
  (BeautifulSoup : str -> result PageElement)
  (lcut : str -> list str) (sort_values : column -> bool -> DataFrame -> DataFrame)
  (chart_type : chart_type) (min_freq top_n : Z)
  (url : str) (e : Exception) :
  nonempty url = true ->
  requests_get url = Raise e \/
  (exists markup,
     requests_get url = Return markup /\ BeautifulSoup markup = Raise e) ->
  fetch_web_content requests_get BeautifulSoup url =
    (None, [st_error (lit "获取网页内容失败: " ++ exc_str e)]) /\
  main requests_get BeautifulSoup lcut sort_values
       chart_type min_freq top_n url true =
    [st_error (lit "获取网页内容失败: " ++ exc_str e);
     st_error (lit "无法获取网页内容，请检查URL是否正确可访问。")].
Proof.
  intros Hurl Hfail.
  pose proof (fetch_web_content_raise requests_get BeautifulSoup url e Hfail)
    as Hfetch.
  split; [exact Hfetch|].
  unfold main. rewrite Hurl, Hfetch. reflexivity.
Qed.

Lemma fetch_web_content_failure_witness :
  fetch_web_content world_get rejecting_parser (lit "http://a.cn/") =
    (None, [st_error (lit "获取网页内容失败: " ++ exc_str rejected_markup)]) /\
  main world_get rejecting_parser lcut_pairs stable_sort_values
       wordcloud 2 20 (lit "http://a.cn/") true =
    [st_error (lit "获取网页内容失败: " ++ exc_str rejected_markup);
     st_error (lit "无法获取网页内容，请检查URL是否正确可访问。")].
Proof.
  apply (fetch_web_content_failure world_get rejecting_parser
           lcut_pairs stable_sort_values wordcloud 2 20 (lit "http://a.cn/")
           rejected_markup).
  - reflexivity.
  - right. exists (lit "<p>数据</p><![foo]>"). split; reflexivity.
Defined.

(** In the world above the parser failure at [http://a.cn/] and the fetch
    failure at [http://] give the caller the same value, [None]; both are
    reported under the one heading, that fetching the page failed, with
    the text of the exception after it, and [main] answers both with the
    same error, that the page could not be fetched. *)
Lemma parser_failure_not_distinct :
  fst (fetch_web_content world_get rejecting_parser (lit "http://a.cn/")) =
    None /\
  fst (fetch_web_content world_get rejecting_parser (lit "http://")) =
    None /\
  main world_get rejecting_parser lcut_pairs stable_sort_values
       wordcloud 2 20 (lit "http://a.cn/") true =
    [st_error (lit "获取网页内容失败: " ++ exc_str rejected_markup);
     st_error (lit "无法获取网页内容，请检查URL是否正确可访问。")] /\
  main world_get rejecting_parser lcut_pairs stable_sort_values
       wordcloud 2 20 (lit "http://") true =
    [st_error (lit "获取网页内容失败: " ++ exc_str no_host);
     st_error (lit "无法获取网页内容，请检查URL是否正确可访问。")].
Proof. repeat split; vm_compute; reflexivity. Qed.

(** ** No data *)

Lemma filter_none {A} (p : A -> bool) (l : list A) :
  (forall x, In x l -> p x = false) -> filter p l = [].
Proof.
  induction l as [|x l IH]; simpl; intros H; [reflexivity|].
  rewrite (H x) by now left. apply IH. intros; apply H; now right.
Qed.

Lemma Counter_entry_In (w : str) (n : Z) (words : list str) :
  In (w, n) (Counter words) -> In w words.
Proof.
  intros H. apply Counter_keys_In.
  change w with (fst (w, n)). now apply in_map.
Qed.

(** C8, as the code has it. When no filtered token reaches the threshold,
    in particular when there is no filtered token at all, [process_text]
    returns the empty table; and when the fetched text is not empty, [main]
    shows its preview and reports the empty table with the warning that not
    enough data was found, not with an error. *)
Theorem empty_table_is_no_data
  (requests_get : str -> result str)
  (BeautifulSoup : str -> result PageElement)
  (lcut : str -> list str) (sort_values : column -> bool -> DataFrame -> DataFrame)
  (chart_type : chart_type) (min_freq top_n : Z) (url text : str) :
  sort_contract (sort_values by_freq false) ->
  (forall term, In term (filtered_words lcut text) ->
     (count_word term (filtered_words lcut text) < min_freq)%Z) ->
  process_text lcut sort_values text min_freq = [] /\
  (nonempty url = true -> nonempty text = true ->
   fetch_web_content requests_get BeautifulSoup url = (Some text, []) ->
   main requests_get BeautifulSoup lcut sort_values
        chart_type min_freq top_n url true =
     [st_text_area (firstn 1000 text ++ lit "...");
      st_warning
        (lit "未找到足够的词汇数据，请尝试调整低频词过滤设置或使用其他URL。")]).
Proof.
  intros Hsort Hlow.
  assert (Hempty : process_text lcut sort_values text min_freq = []).
  { unfold process_text, process_text_with.
    fold (filtered_words_with lcut stop_words text).
    fold (filtered_words lcut text).
    set (tokens := filtered_words lcut text) in *.
    destruct (Hsort (drop_low_freq min_freq (Counter tokens))) as [Hperm _].
    unfold drop_low_freq in *. rewrite filter_none in *.
    - now apply Permutation_nil in Hperm.
    - intros [w n] H. simpl. apply Z.leb_gt.
      pose proof (Counter_entry_In _ _ _ H) as Hw.
      apply In_Counter in H. destruct H as [-> _]. now apply Hlow.
    - intros [w n] H. simpl. apply Z.leb_gt.
      pose proof (Counter_entry_In _ _ _ H) as Hw.
      apply In_Counter in H. destruct H as [-> _]. now apply Hlow. }
  split; [exact Hempty|].
  intros Hurl Htext Hfetch. unfold main.
  rewrite Hurl, Hfetch, Htext, Hempty. reflexivity.
Qed.

Lemma empty_table_is_no_data_witness :
  process_text lcut_pairs stable_sort_values (lit "数据分析数据可视") 5 = [] /\
  main article_get article_parser lcut_pairs stable_sort_values
       wordcloud 5 20 (lit "http://a.cn") true =
    [st_text_area (firstn 1000 (lit "数据分析数据可视") ++ lit "...");
     st_warning
       (lit "未找到足够的词汇数据，请尝试调整低频词过滤设置或使用其他URL。")].
Proof.
  destruct (empty_table_is_no_data article_get article_parser
              lcut_pairs stable_sort_values wordcloud 5 20
              (lit "http://a.cn") (lit "数据分析数据可视")
              stable_sort_values_contract) as [Hempty Hmain].
  - intros term Hin. vm_compute in Hin.
    destruct Hin as [<-|[<-|[<-|[<-|[]]]]]; vm_compute; reflexivity.
  - split; [exact Hempty|].
    apply Hmain; vm_compute; reflexivity.
Defined.

(** A page whose only content is a script: the fetch succeeds, the
    normalized text is empty, and [main] answers with the error of a failed
    fetch; [process_text] is not called. *)
Lemma empty_text_reported_as_error :
  fetch_web_content script_only_get script_only_parser (lit "http://a.cn") =
    (Some [], []) /\
  process_text lcut_pairs stable_sort_values [] 2 = [] /\
  main script_only_get script_only_parser lcut_pairs stable_sort_values
       wordcloud 2 20 (lit "http://a.cn") true =
    [st_error (lit "无法获取网页内容，请检查URL是否正确可访问。")].
Proof. repeat split; vm_compute; reflexivity. Qed.

(** * Further properties of the program *)

(** ** process_text: rows of the table *)

Lemma total_count_perm (a b : list entry) :
  Permutation a b -> total_count a = total_count b.
Proof.
  unfold total_count.
  induction 1 as [|x a b _ IH|x y a|a b c _ IH1 _ IH2]; simpl; lia.
Qed.

Lemma total_count_filter (p : entry -> bool) (c : list entry) :
  Forall (fun e => (1 <= snd e)%Z) c ->
  (total_count (filter p c) <= total_count c)%Z /\
  (0 <= total_count (filter p c))%Z.
Proof.
  unfold total_count.
  induction 1 as [|e c He _ IH]; simpl; [lia|].
  destruct (p e); simpl; lia.
Qed.

Lemma filter_all {A} (p : A -> bool) (l : list A) :
  (forall x, In x l -> p x = true) -> filter p l = l.
Proof.
  induction l as [|x l IH]; simpl; intros H; [reflexivity|].
  rewrite (H x) by now left. f_equal. apply IH. intros; apply H; now right.
Qed.

Lemma drop_low_freq_at_most_1 (min_freq : Z) (words : list str) :
  (min_freq <= 1)%Z -> drop_low_freq min_freq (Counter words) = Counter words.
Proof.
  intros Hm. unfold drop_low_freq. apply filter_all.
  intros e He. apply Z.leb_le.
  pose proof (Counter_positive words) as Hpos.
  rewrite Forall_forall in Hpos. specialize (Hpos e He). lia.
Qed.

Lemma counter_incr_length (word : str) (c : list entry) :
  (length (counter_incr word c) <= S (length c))%nat.
Proof.
  induction c as [|[k v] c IH]; simpl; [lia|].
  destruct (str_eqb k word); simpl; lia.
Qed.

Lemma Counter_length (words : list str) :
  (length (Counter words) <= length words)%nat.
Proof.
  induction words as [|w words IH] using rev_ind; [simpl; lia|].
  rewrite Counter_snoc, length_app. simpl.
  pose proof (counter_incr_length w (Counter words)). lia.
Qed.

Lemma filter_length_le {A} (p : A -> bool) (l : list A) :
  (length (filter p l) <= length l)%nat.
Proof.
  induction l as [|x l IH]; simpl; [lia|]. destruct (p x); simpl; lia.
Qed.

(** X1. Every row of the table carries a term that passed the token filter
    (at least two characters, no stopword, a character of U+4E00..U+9FA5)
    together with a count of at least 1. *)
Theorem process_text_rows_valid
  (lcut : str -> list str) (sort_values : column -> bool -> DataFrame -> DataFrame)
  (text : str) (min_freq : Z) :
  sort_contract (sort_values by_freq false) ->
  Forall
    (fun row =>
       In (fst row) (lcut text) /\
       (2 <= length (fst row))%nat /\ ~ In (fst row) stop_words /\
       (exists c, In c (fst row) /\ (0x4e00 <= c <= 0x9fa5)%N) /\
       (1 <= snd row)%Z)
    (process_text lcut sort_values text min_freq).
Proof.
  intros Hsort. unfold process_text, process_text_with.
  destruct (Hsort (drop_low_freq min_freq
              (Counter (filter_words stop_words (lcut text))))) as [Hperm _].
  rewrite Forall_forall. intros [w n] H.
  apply (Permutation_in _ (Permutation_sym Hperm)) in H.
  apply filter_In in H. destruct H as [H _].
  pose proof (Counter_entry_In _ _ _ H) as Hw.
  rewrite filter_words_filter in Hw. apply filter_In in Hw.
  destruct Hw as [Hin Hkeep]. apply keep_word_spec in Hkeep.
  apply In_Counter in H. cbn [fst snd]. tauto.
Qed.

Lemma process_text_rows_valid_witness :
  Forall
    (fun row =>
       In (fst row) (lcut_pairs (lit "数据我们分析ab数据")) /\
       (2 <= length (fst row))%nat /\ ~ In (fst row) stop_words /\
       (exists c, In c (fst row) /\ (0x4e00 <= c <= 0x9fa5)%N) /\
       (1 <= snd row)%Z)
    (process_text lcut_pairs stable_sort_values (lit "数据我们分析ab数据") 1).
Proof.
  apply (process_text_rows_valid lcut_pairs stable_sort_values
           (lit "数据我们分析ab数据") 1 stable_sort_values_contract).
Defined.

Example process_text_filter_run :
  process_text lcut_pairs stable_sort_values (lit "数据我们分析ab数据") 1 =
  [(lit "数据", 2%Z); (lit "分析", 1%Z)].
Proof. vm_compute. reflexivity. Qed.

(** X2. The counts of the table add up to at most the number of filtered
    tokens, and to exactly that number when the threshold is 1 or less. *)
Theorem process_text_total
  (lcut : str -> list str) (sort_values : column -> bool -> DataFrame -> DataFrame)
  (text : str) (min_freq : Z) :
  sort_contract (sort_values by_freq false) ->
  (0 <= total_count (process_text lcut sort_values text min_freq)
     <= Z.of_nat (length (filtered_words lcut text)))%Z /\
  ((min_freq <= 1)%Z ->
   total_count (process_text lcut sort_values text min_freq) =
   Z.of_nat (length (filtered_words lcut text))).
Proof.
  intros Hsort. unfold process_text, process_text_with.
  fold (filtered_words_with lcut stop_words text).
  fold (filtered_words lcut text).
  set (tokens := filtered_words lcut text).
  destruct (Hsort (drop_low_freq min_freq (Counter tokens))) as [Hperm _].
  rewrite <- (total_count_perm _ _ Hperm).
  assert (Htotal : total_count (Counter tokens) = Z.of_nat (length tokens)).
  { unfold Counter. rewrite total_count_fold. reflexivity. }
  split.
  - rewrite <- Htotal. unfold drop_low_freq.
    destruct (total_count_filter
                (fun wf => (min_freq <=? snd wf)%Z) (Counter tokens)
                (Counter_positive tokens)) as [Hle Hge].
    split; [exact Hge | exact Hle].
  - intros Hm. now rewrite drop_low_freq_at_most_1.
Qed.

Lemma process_text_total_witness :
  (0 <= total_count
          (process_text lcut_pairs stable_sort_values (lit "数据分析数据可视") 1)
     <= Z.of_nat (length (filtered_words lcut_pairs (lit "数据分析数据可视"))))%Z
  /\
  total_count
    (process_text lcut_pairs stable_sort_values (lit "数据分析数据可视") 1) =
  Z.of_nat (length (filtered_words lcut_pairs (lit "数据分析数据可视"))).
Proof.
  destruct (process_text_total lcut_pairs stable_sort_values
              (lit "数据分析数据可视") 1 stable_sort_values_contract)
    as [Hbound Heq].
  split; [exact Hbound | apply Heq; lia].
Defined.

(** X3. A threshold of 1 or less filters nothing: the table is the one for
    the threshold 1, whatever the sorting routine. *)
Theorem process_text_low_threshold
  (lcut : str -> list str) (sort_values : column -> bool -> DataFrame -> DataFrame)
  (text : str) (min_freq : Z) :
  (min_freq <= 1)%Z ->
  process_text lcut sort_values text min_freq =
  process_text lcut sort_values text 1.
Proof.
  intros Hm. unfold process_text, process_text_with.
  rewrite !drop_low_freq_at_most_1 by lia. reflexivity.
Qed.

Lemma process_text_low_threshold_witness :
  process_text lcut_pairs stable_sort_values (lit "数据分析数据可视") (-3) =
  process_text lcut_pairs stable_sort_values (lit "数据分析数据可视") 1.
Proof.
  apply (process_text_low_threshold lcut_pairs stable_sort_values
           (lit "数据分析数据可视") (-3)).
  lia.
Defined.

(** X4. Raising the threshold only removes rows: every row of the table for
    the higher threshold is a row of the table for the lower one, so the
    table does not get longer. *)
Theorem process_text_threshold_monotone
  (lcut : str -> list str) (sort_values : column -> bool -> DataFrame -> DataFrame)
  (text : str) (low high : Z) :
  sort_contract (sort_values by_freq false) ->
  (low <= high)%Z ->
  incl (process_text lcut sort_values text high)
       (process_text lcut sort_values text low) /\
  (length (process_text lcut sort_values text high) <=
   length (process_text lcut sort_values text low))%nat.
Proof.
  intros Hsort Hle. unfold process_text, process_text_with.
  set (c := Counter (filter_words stop_words (lcut text))).
  destruct (Hsort (drop_low_freq high c)) as [Hhigh _].
  destruct (Hsort (drop_low_freq low c)) as [Hlow _].
  assert (Hfilter : drop_low_freq high c =
                    filter (fun wf => (high <=? snd wf)%Z)
                      (drop_low_freq low c)).
  { unfold drop_low_freq. clear Hhigh Hlow.
    induction c as [|e c IH]; simpl; [reflexivity|].
    destruct (high <=? snd e)%Z eqn:E1, (low <=? snd e)%Z eqn:E2; simpl;
      rewrite ?E1, IH; try reflexivity.
    apply Z.leb_le in E1. apply Z.leb_gt in E2. lia. }
  split.
  - intros row H.
    apply (Permutation_in _ (Permutation_sym Hhigh)) in H.
    apply (Permutation_in _ Hlow).
    rewrite Hfilter in H. apply filter_In in H. tauto.
  - rewrite <- (Permutation_length Hhigh), <- (Permutation_length Hlow).
    rewrite Hfilter. apply filter_length_le.
Qed.

Lemma process_text_threshold_monotone_witness :
  incl (process_text lcut_pairs stable_sort_values (lit "数据分析数据可视") 2)
       (process_text lcut_pairs stable_sort_values (lit "数据分析数据可视") 1) /\
  (length (process_text lcut_pairs stable_sort_values (lit "数据分析数据可视") 2) <=
   length (process_text lcut_pairs stable_sort_values (lit "数据分析数据可视") 1))%nat.
Proof.
  apply (process_text_threshold_monotone lcut_pairs stable_sort_values
           (lit "数据分析数据可视") 1 2 stable_sort_values_contract).
  lia.
Defined.

(** X5. The table has at most as many rows as there are filtered tokens,
    which are at most as many as the tokens of the segmentation. *)
Theorem process_text_length
  (lcut : str -> list str) (sort_values : column -> bool -> DataFrame -> DataFrame)
  (text : str) (min_freq : Z) :
  sort_contract (sort_values by_freq false) ->
  (length (process_text lcut sort_values text min_freq) <=
   length (filtered_words lcut text) <= length (lcut text))%nat.
Proof.
  intros Hsort. unfold process_text, process_text_with.
  unfold filtered_words, filtered_words_with.
  set (tokens := filter_words stop_words (lcut text)).
  destruct (Hsort (drop_low_freq min_freq (Counter tokens))) as [Hperm _].
  rewrite <- (Permutation_length Hperm). split.
  - unfold drop_low_freq.
    apply (Nat.le_trans _ (length (Counter tokens)));
      [apply filter_length_le | apply Counter_length].
  - unfold tokens. rewrite filter_words_filter. apply filter_length_le.
Qed.

Lemma process_text_length_witness :
  (length (process_text lcut_pairs stable_sort_values (lit "数据我们分析ab数据") 1) <=
   length (filtered_words lcut_pairs (lit "数据我们分析ab数据")) <=
   length (lcut_pairs (lit "数据我们分析ab数据")))%nat.
Proof.
  apply (process_text_length lcut_pairs stable_sort_values
           (lit "数据我们分析ab数据") 1 stable_sort_values_contract).
Defined.

(** ** The top row and the radar chart *)

Lemma fold_max_le (fs : list Z) (f m : Z) :
  (f <= m)%Z -> Forall (fun x => (x <= m)%Z) fs ->
  (fold_left Z.max fs f <= m)%Z.
Proof.
  revert f; induction fs as [|x fs IH]; intros f Hf H; simpl; [exact Hf|].
  inversion H; subst. apply IH; [lia | assumption].
Qed.

Lemma fold_max_ge (fs : list Z) (f : Z) :
  (f <= fold_left Z.max fs f)%Z /\
  Forall (fun x => (x <= fold_left Z.max fs f)%Z) fs.
Proof.
  revert f; induction fs as [|x fs IH]; intros f; simpl.
  - split; [lia | constructor].
  - destruct (IH (Z.max f x)) as [H1 H2]. split; [lia|].
    constructor; [lia | exact H2].
Qed.

(** [max(df['频率'])] bounds every value of the column. *)
Lemma max_freq_bound (df : DataFrame) :
  Forall (fun v => (v <= max_freq df)%Z) (freq_column df).
Proof.
  unfold max_freq. destruct (freq_column df) as [|f fs]; [constructor|].
  destruct (fold_max_ge fs f) as [H1 H2]. now constructor.
Qed.

Lemma Forall_firstn {A} (P : A -> Prop) (k : nat) (l : list A) :
  Forall P l -> Forall P (firstn k l).
Proof.
  intros H. rewrite <- (firstn_skipn k l) in H.
  now apply Forall_app in H.
Qed.

(** Membership in the table, for every threshold. *)
Lemma process_text_In
  (lcut : str -> list str)
  (sort_values : column -> bool -> DataFrame -> DataFrame)
  (text : str) (min_freq : Z) (w : str) (n : Z) :
  sort_contract (sort_values by_freq false) ->
  In (w, n) (process_text lcut sort_values text min_freq) <->
  n = count_word w (filtered_words lcut text) /\ (1 <= n)%Z /\
  (min_freq <= n)%Z.
Proof.
  intros Hsort. unfold process_text, process_text_with.
  fold (filtered_words_with lcut stop_words text).
  fold (filtered_words lcut text).
  set (tokens := filtered_words lcut text).
  destruct (Hsort (drop_low_freq min_freq (Counter tokens))) as [Hperm _].
  split.
  - intros H. apply (Permutation_in _ (Permutation_sym Hperm)) in H.
    apply filter_In in H. destruct H as [H Hn]. apply In_Counter in H.
    simpl in Hn. apply Z.leb_le in Hn. tauto.
  - intros (Hn & H1 & Hge). apply (Permutation_in _ Hperm).
    apply filter_In. split.
    + apply In_Counter. split; assumption.
    + simpl. now apply Z.leb_le.
Qed.

Lemma count_word_nonneg (w : str) (l : list str) : (0 <= count_word w l)%Z.
Proof.
  induction l as [|x l IH]; simpl; [lia|]. destruct (str_eqb x w); lia.
Qed.

(** X6. When the table is not empty, its first row is a most frequent
    filtered token with its number of occurrences: no term occurs more
    often among the filtered tokens than the term of the first row, and
    [max(df['频率'])], which the radar chart takes as the maximum of its
    axes, is the count of that row.  This is the row [main] shows as the
    most frequent term. *)
Theorem process_text_top_row
  (lcut : str -> list str)
  (sort_values : column -> bool -> DataFrame -> DataFrame)
  (text : str) (min_freq : Z) (top : entry) (rest : list entry) :
  sort_contract (sort_values by_freq false) ->
  process_text lcut sort_values text min_freq = top :: rest ->
  snd top = count_word (fst top) (filtered_words lcut text) /\
  (forall term,
     (count_word term (filtered_words lcut text) <= snd top)%Z) /\
  max_freq (top :: rest) = snd top.
Proof.
  intros Hsort Htable.
  assert (Hsorted : StronglySorted count_desc (top :: rest)).
  { rewrite <- Htable. unfold process_text, process_text_with. apply Hsort. }
  inversion Hsorted as [|? ? _ Hrest]; subst.
  assert (Htop : In (fst top, snd top)
                   (process_text lcut sort_values text min_freq)).
  { rewrite Htable. left. now destruct top. }
  apply (process_text_In lcut sort_values text min_freq _ _ Hsort) in Htop.
  destruct Htop as (Hcount & Hone & Hmin).
  split; [exact Hcount|]. split.
  - intros term.
    set (n := count_word term (filtered_words lcut text)).
    destruct (Z_lt_le_dec n 1) as [Hlow|Hn1]; [lia|].
    destruct (Z_lt_le_dec n min_freq) as [Hlow|Hnm]; [lia|].
    assert (Hin : In (term, n)
                    (process_text lcut sort_values text min_freq)).
    { apply (process_text_In lcut sort_values text min_freq _ _ Hsort).
      repeat split; assumption. }
    rewrite Htable in Hin. destruct Hin as [Heq|Hin].
    + rewrite Heq. simpl. lia.
    + rewrite Forall_forall in Hrest. apply (Hrest _ Hin).
  - unfold max_freq, freq_column. cbn [map].
    apply Z.le_antisymm.
    + apply fold_max_le; [lia|].
      rewrite Forall_map. exact Hrest.
    + apply fold_max_ge.
Qed.

Lemma process_text_top_row_witness :
  snd (lit "数据", 2%Z) =
    count_word (fst (lit "数据", 2%Z))
      (filtered_words lcut_pairs (lit "数据分析数据可视")) /\
  (forall term,
     (count_word term (filtered_words lcut_pairs (lit "数据分析数据可视"))
      <= snd (lit "数据", 2%Z))%Z) /\
  max_freq [(lit "数据", 2%Z); (lit "分析", 1%Z); (lit "可视", 1%Z)] =
    snd (lit "数据", 2%Z).
Proof.
  apply (process_text_top_row lcut_pairs stable_sort_values
           (lit "数据分析数据可视") 1 (lit "数据", 2%Z)
           [(lit "分析", 1%Z); (lit "可视", 1%Z)]
           stable_sort_values_contract).
  vm_compute. reflexivity.
Defined.

(** X7. In the radar chart, for every table and every [top_n], there is one
    axis per value, every axis has the maximum [max(df['频率'])] of the
    whole table, and no value exceeds it. *)
Theorem create_radar_chart_within_axes (df : DataFrame) (top_n : Z) :
  exists schema data,
    create_radar_chart df top_n = Radar schema data /\
    length schema = length data /\
    Forall (fun axis => snd axis = max_freq df) schema /\
    Forall (fun v => (v <= max_freq df)%Z) data.
Proof.
  unfold create_radar_chart. eexists; eexists. split; [reflexivity|].
  unfold words_column, freq_column. repeat split.
  - now rewrite !length_map.
  - rewrite Forall_map, Forall_map. apply Forall_forall. reflexivity.
  - destruct (head_firstn_some top_n df) as [k ->].
    rewrite <- firstn_map. apply Forall_firstn, max_freq_bound.
Qed.

(** ** fetch_web_content and main: outcomes *)

(** X9. [main] renders a chart only when the URL is not empty, the button
    was pressed, the fetch returned a text that is not empty, and the table
    of that text is not empty; the chart is then the one of that table. *)
Theorem main_chart_only_with_data
  (requests_get : str -> result str)
  (BeautifulSoup : str -> result PageElement)
  (lcut : str -> list str) (sort_values : column -> bool -> DataFrame -> DataFrame)
  (chart_type : chart_type) (min_freq top_n : Z)
  (url : str) (fetch_button : bool) (c : chart) :
  In (st_pyecharts c)
     (main requests_get BeautifulSoup lcut sort_values
           chart_type min_freq top_n url fetch_button) ->
  nonempty url = true /\ fetch_button = true /\
  exists text,
    fetch_web_content requests_get BeautifulSoup url = (Some text, []) /\
    nonempty text = true /\
    process_text lcut sort_values text min_freq <> [] /\
    c = make_chart chart_type
          (process_text lcut sort_values text min_freq) top_n.
Proof.
  unfold main.
  destruct (nonempty url) eqn:Hurl; simpl.
  2:{ destruct (fetch_button && true); simpl; [|tauto].
      intros [H|[]]; discriminate. }
  destruct fetch_button; simpl; [|tauto].
  intros H. split; [reflexivity|]. split; [reflexivity|].
  unfold fetch_web_content in *.
  destruct (requests_get url) as [markup|e]; simpl in *.
  2:{ destruct H as [H|[H|[]]]; discriminate. }
  destruct (BeautifulSoup markup) as [soup|e]; simpl in *.
  2:{ destruct H as [H|[H|[]]]; discriminate. }
  exists (extract_text soup). split; [reflexivity|].
  destruct (nonempty (extract_text soup)) eqn:Htext.
  2:{ destruct H as [H|[]]; discriminate. }
  split; [reflexivity|].
  destruct H as [H|H]; [discriminate|].
  unfold show_table in H.
  destruct (process_text lcut sort_values (extract_text soup) min_freq)
    as [|top rest] eqn:Htable.
  - destruct H as [H|[]]; discriminate.
  - split; [discriminate|].
    simpl in H.
    repeat (destruct H as [H|H]; [try discriminate|]); [|contradiction].
    now inversion H.
Qed.

Lemma main_chart_only_with_data_witness :
  nonempty (lit "http://a.cn") = true /\ true = true /\
  exists text,
    fetch_web_content article_get article_parser (lit "http://a.cn") =
      (Some text, []) /\
    nonempty text = true /\
    process_text lcut_pairs stable_sort_values text 2 <> [] /\
    Bar [lit "数据"] [2%Z] =
    make_chart bar (process_text lcut_pairs stable_sort_values text 2) 20.
Proof.
  apply (main_chart_only_with_data article_get article_parser
           lcut_pairs stable_sort_values bar 2 20 (lit "http://a.cn") true
           (Bar [lit "数据"] [2%Z])).
  vm_compute. tauto.
Defined.

(** ** extract_text: documents without script or style *)

(** X10. Removing the [script] and [style] elements a second time changes
    nothing, and for a document that has none the text is the cleaned
    [get_text] of the document as parsed. *)
Theorem extract_text_nothing_hidden (soup : PageElement) :
  extract_text (decompose_all hidden_tags soup) = extract_text soup /\
  (find_all hidden_tags soup = [] ->
   extract_text soup = clean_text (get_text soup)).
Proof.
  unfold extract_text. split.
  - rewrite (decompose_all_nothing_found hidden_tags
               (decompose_all hidden_tags soup)); [reflexivity|].
    apply find_all_decompose_all.
  - intros H. now rewrite decompose_all_nothing_found.
Qed.

(** ** clean_text: shape of the result *)

Lemma lstrip_suffix (s : str) : exists p, s = p ++ lstrip s.
Proof.
  induction s as [|c s [p IH]]; simpl; [now exists []|].
  destruct (isspace c); [|now exists []].
  exists (c :: p). simpl. now rewrite <- IH.
Qed.

Lemma lstrip_starts_clean (s : str) : starts_clean (lstrip s) = true.
Proof.
  induction s as [|c s IH]; simpl; [reflexivity|].
  destruct (isspace c) eqn:E; [exact IH|]. simpl. now rewrite E.
Qed.

Lemma lstrip_clean_id (s : str) : starts_clean s = true -> lstrip s = s.
Proof.
  destruct s as [|c s]; simpl; [reflexivity|].
  now destruct (isspace c).
Qed.

Lemma lstrip_all_space (s : str) :
  Forall (fun c => isspace c = true) s -> lstrip s = [].
Proof. induction 1 as [|c s Hc _ IH]; simpl; [|rewrite Hc]; auto. Qed.

Lemma starts_clean_app (x y : str) :
  x <> [] -> starts_clean (x ++ y) = starts_clean x.
Proof. destruct x; [congruence | reflexivity]. Qed.

Lemma starts_space_app (x y : str) :
  x <> [] -> starts_space (x ++ y) = starts_space x.
Proof. destruct x; [congruence | reflexivity]. Qed.

Lemma starts_clean_prefix (x y : str) :
  starts_clean (x ++ y) = true -> starts_clean x = true.
Proof. destruct x; [reflexivity | exact (fun H => H)]. Qed.

Lemma starts_clean_not_space (s : str) :
  starts_clean s = true -> starts_space s = false.
Proof.
  destruct s as [|c s]; simpl; [reflexivity|].
  unfold is_space. destruct (c =? 32)%N eqn:E; [|reflexivity].
  apply N.eqb_eq in E; subst c. discriminate.
Qed.

(** The stripped string is a piece of the string. *)
Lemma strip_infix (s : str) : exists p q, s = p ++ strip s ++ q.
Proof.
  unfold strip, rstrip.
  destruct (lstrip_suffix s) as [p Hp].
  destruct (lstrip_suffix (rev (lstrip s))) as [q Hq].
  exists p, (rev q).
  rewrite <- rev_app_distr, <- Hq, rev_involutive. exact Hp.
Qed.

Lemma strip_clean (s : str) :
  starts_clean (strip s) = true /\ starts_clean (rev (strip s)) = true.
Proof.
  unfold strip, rstrip. split.
  - destruct (lstrip_suffix (rev (lstrip s))) as [q Hq].
    apply (f_equal (@rev char)) in Hq.
    rewrite rev_involutive, rev_app_distr in Hq.
    apply (starts_clean_prefix _ (rev q)). rewrite <- Hq.
    apply lstrip_starts_clean.
  - rewrite rev_involutive. apply lstrip_starts_clean.
Qed.

Lemma strip_id (s : str) :
  starts_clean s = true -> starts_clean (rev s) = true -> strip s = s.
Proof.
  intros H1 H2. unfold strip, rstrip.
  rewrite (lstrip_clean_id s H1), (lstrip_clean_id _ H2).
  apply rev_involutive.
Qed.

Lemma strip_all_space (s : str) :
  Forall (fun c => isspace c = true) s -> strip s = [].
Proof. intros H. unfold strip. now rewrite lstrip_all_space. Qed.

Lemma has_double_space_app (x y : str) :
  has_double_space (x ++ y) =
  has_double_space x || has_double_space y ||
  (starts_space (rev x) && starts_space y).
Proof.
  induction x as [|c x IH]; [simpl; now rewrite orb_false_r|].
  cbn [app has_double_space]. rewrite IH.
  destruct x as [|d x].
  - simpl. destruct (is_space c), (starts_space y), (has_double_space y);
      reflexivity.
  - assert (Hrev : starts_space (rev (c :: d :: x)) =
                   starts_space (rev (d :: x))).
    { change (rev (c :: d :: x)) with (rev (d :: x) ++ [c]).
      apply starts_space_app. simpl. now destruct (rev x). }
    rewrite Hrev. cbn [app starts_space].
    destruct (is_space c), (is_space d), (has_double_space (d :: x)),
      (has_double_space y), (starts_space (rev (d :: x))), (starts_space y);
      reflexivity.
Qed.

Lemma has_double_space_infix (p x q : str) :
  has_double_space (p ++ x ++ q) = false -> has_double_space x = false.
Proof.
  rewrite !has_double_space_app. intros H.
  repeat (apply orb_false_iff in H; destruct H as [H ?]).
  repeat match goal with
         | H : _ || _ = false |- _ =>
             apply orb_false_iff in H; destruct H
         end.
  assumption.
Qed.

Lemma Forall_infix {A} (P : A -> Prop) (p x q : list A) :
  Forall P (p ++ x ++ q) -> Forall P x.
Proof.
  intros H. apply Forall_app in H. destruct H as [_ H].
  now apply Forall_app in H.
Qed.

Lemma add_char_Forall (P : char -> Prop) (c : char) (parts : list str) :
  P c -> Forall (Forall P) parts -> Forall (Forall P) (add_char c parts).
Proof.
  intros Hc H. destruct parts as [|p ps]; simpl.
  - repeat constructor; assumption.
  - inversion H; subst. constructor; [now constructor | assumption].
Qed.

(** The pieces of a split are made of characters of the string. *)
Lemma split_from_Forall (P : char -> Prop) (sep : str) (skip : nat) (s : str) :
  Forall P s -> Forall (Forall P) (split_from sep skip s).
Proof.
  intros H. revert skip. induction H as [|c s Hc Hs IH]; intros skip.
  - repeat constructor.
  - cbn [split_from]. destruct skip as [|k]; [|apply IH].
    destruct (starts_with sep (c :: s)).
    + constructor; [constructor | apply IH].
    + apply add_char_Forall; [exact Hc | apply IH].
Qed.

(** The lines of [splitlines] are made of characters of the text and hold
    no line break. *)
Lemma splitlines_from_Forall (P : char -> Prop) (s cur : str) :
  Forall (fun c => P c /\ is_linebreak c = false) cur ->
  Forall P s ->
  Forall (Forall (fun c => P c /\ is_linebreak c = false))
    (splitlines_from cur s).
Proof.
  assert (H : forall n (s cur : str), (length s <= n)%nat ->
            Forall (fun c => P c /\ is_linebreak c = false) cur ->
            Forall P s ->
            Forall (Forall (fun c => P c /\ is_linebreak c = false))
              (splitlines_from cur s)).
  { clear s cur. induction n as [|n IH]; intros [|c s] cur Hlen Hcur Hs;
      simpl in Hlen; try lia.
    - simpl. destruct cur; repeat constructor; try apply Forall_rev;
        inversion Hcur; subst; auto.
    - simpl. destruct cur; repeat constructor; try apply Forall_rev;
        inversion Hcur; subst; auto.
    - inversion Hs as [|? ? Hc Hs']; subst. cbn [splitlines_from].
      destruct (is_linebreak c) eqn:E.
      + constructor; [now apply Forall_rev|].
        destruct s as [|d s]; [apply IH; auto; simpl; lia|].
        destruct ((c =? 13)%N && (d =? 10)%N).
        * inversion Hs'; subst. apply IH; auto. simpl in Hlen. lia.
        * apply IH; auto. lia.
      + apply IH; [lia | constructor; auto | assumption]. }
  apply (H (length s)). lia.
Qed.

Lemma starts_with_space (r : str) : starts_with [32%N] r = starts_space r.
Proof.
  destruct r as [|d r]; [reflexivity|]. cbn [starts_with starts_space].
  unfold is_space. now rewrite andb_true_r, N.eqb_sym.
Qed.

(** No piece of [split("  ")] holds two consecutive spaces, and the first
    piece starts with a space only where the string does. *)
Lemma split_two_no_double_space (s : str) :
  Forall (fun p => has_double_space p = false)
    (split_from [32; 32]%N 0 s) /\
  (starts_space (hd [] (split_from [32; 32]%N 0 s)) = true ->
   starts_space s = true).
Proof.
  assert (H : forall n (s : str), (length s <= n)%nat ->
            Forall (fun p => has_double_space p = false)
              (split_from [32; 32]%N 0 s) /\
            (starts_space (hd [] (split_from [32; 32]%N 0 s)) = true ->
             starts_space s = true)).
  { clear s. induction n as [|n IH]; intros [|c s] Hlen; simpl in Hlen;
      try lia; try (split; [repeat constructor | discriminate]).
    destruct (is_space c && starts_with [32%N] s) eqn:E.
    - apply andb_true_iff in E. destruct E as [Ec Es].
      apply N.eqb_eq in Ec; subst c.
      destruct s as [|d s]; [discriminate|]. cbn [starts_with] in Es.
      rewrite andb_true_r in Es. apply N.eqb_eq in Es; subst d.
      rewrite split_two_match. split; [|discriminate].
      constructor; [reflexivity|]. apply IH. simpl in Hlen. lia.
    - rewrite split_two_other by exact E.
      destruct (IH s) as [Hall Hfirst]; [lia|].
      destruct (split_two_cons s) as (h & t & Hs). rewrite Hs in *.
      cbn [add_char hd] in *. inversion Hall as [|? ? Hh Ht]; subst.
      split; [|exact (fun H => H)].
      constructor; [|exact Ht].
      cbn [has_double_space]. rewrite Hh, orb_false_r.
      rewrite starts_with_space in E.
      destruct (is_space c); [|reflexivity]. simpl in *.
      destruct (starts_space h); [|reflexivity].
      now rewrite Hfirst in E. }
  apply (H (length s)). lia.
Qed.

Lemma strip_tidy (s : str) :
  has_double_space s = false ->
  Forall (fun c => is_linebreak c = false) s ->
  tidy (strip s).
Proof.
  intros Hd Hl. destruct (strip_infix s) as (p & q & Hs).
  destruct (strip_clean s) as [H1 H2].
  repeat split; try assumption.
  - rewrite Hs in Hd. now apply has_double_space_infix in Hd.
  - rewrite Hs in Hl. now apply Forall_infix in Hl.
Qed.

(** Every chunk that [clean_text] joins is tidy and not empty. *)
Lemma clean_text_chunks (text : str) :
  Forall (fun ch => tidy ch /\ ch <> [])
    (filter nonempty
       (flat_map (fun line => map strip (split (lit "  ") line))
          (map strip (splitlines text)))).
Proof.
  rewrite two_spaces. unfold split, splitlines.
  pose proof (splitlines_from_Forall (fun _ => True) text []
                (Forall_nil _)) as Hlines.
  assert (Htext : Forall (fun _ : char => True) text)
    by (apply Forall_forall; auto).
  specialize (Hlines Htext).
  induction Hlines as [|line lines Hline _ IH]; [constructor|].
  cbn [map flat_map]. rewrite filter_app. apply Forall_app. split; [|exact IH].
  assert (Hnl : Forall (fun c => is_linebreak c = false) (strip line)).
  { destruct (strip_infix line) as (p & q & Hs).
    rewrite Hs in Hline. apply Forall_infix in Hline.
    revert Hline. apply Forall_impl. tauto. }
  pose proof (split_from_Forall _ [32; 32]%N 0 _ Hnl) as Hpieces.
  destruct (split_two_no_double_space (strip line)) as [Hnd _].
  induction Hpieces as [|piece pieces Hp _ IHp]; [constructor|].
  inversion Hnd; subst. cbn [map filter].
  destruct (nonempty (strip piece)) eqn:E; [|now apply IHp].
  constructor; [|now apply IHp].
  split; [now apply strip_tidy|].
  intros Hnil. rewrite Hnil in E. discriminate.
Qed.

Lemma join_space_cons (p q : str) (rest : list str) :
  join (lit " ") (p :: q :: rest) = p ++ 32%N :: join (lit " ") (q :: rest).
Proof. reflexivity. Qed.

Lemma join_tidy (chunks : list str) :
  Forall (fun ch => tidy ch /\ ch <> []) chunks ->
  tidy (join (lit " ") chunks) /\
  (chunks <> [] -> join (lit " ") chunks <> []).
Proof.
  induction 1 as [|p rest [Hp Hne] Hrest IH].
  - split; [|congruence]. repeat split; constructor.
  - destruct rest as [|q rest]; [split; [exact Hp | now intros _]|].
    rewrite join_space_cons.
    destruct IH as [(J1 & J2 & J3 & J4) Jne].
    specialize (Jne ltac:(discriminate)).
    destruct Hp as (P1 & P2 & P3 & P4).
    set (J := join (lit " ") (q :: rest)) in *.
    split; [|destruct p; [congruence | discriminate]].
    repeat split.
    + now rewrite starts_clean_app.
    + rewrite rev_app_distr. cbn [rev]. rewrite <- !app_assoc.
      rewrite starts_clean_app; [exact J2|].
      intros Hnil. apply (f_equal (@rev char)) in Hnil.
      rewrite rev_involutive in Hnil. now apply Jne.
    + rewrite has_double_space_app. cbn [has_double_space starts_space].
      rewrite P3, J3, (starts_clean_not_space _ P2),
        (starts_clean_not_space _ J1).
      reflexivity.
    + apply Forall_app. split; [exact P4|]. constructor; [reflexivity|exact J4].
Qed.

(** X11. The text [fetch_web_content] returns for a parsed page is one
    line without whitespace at either end and without two consecutive
    spaces, whatever the page. *)
Theorem clean_text_tidy (text : str) :
  Forall (fun c => is_linebreak c = false) (clean_text text) /\
  strip (clean_text text) = clean_text text /\
  has_double_space (clean_text text) = false.
Proof.
  destruct (join_tidy _ (clean_text_chunks text)) as [(H1 & H2 & H3 & H4) _].
  fold (clean_text text) in *.
  split; [exact H4|]. split; [now apply strip_id | exact H3].
Qed.

Lemma splitlines_from_one_line (s cur : str) :
  Forall (fun c => is_linebreak c = false) s ->
  splitlines_from cur s =
  match rev cur ++ s with
  | [] => []
  | c :: r => [c :: r]
  end.
Proof.
  intros H. revert cur. induction H as [|c s Hc _ IH]; intros cur.
  - cbn [splitlines_from]. rewrite app_nil_r.
    destruct cur as [|c cur]; [reflexivity|].
    cbn [rev]. now destruct (rev cur).
  - cbn [splitlines_from]. rewrite Hc, IH. cbn [rev].
    now rewrite <- app_assoc.
Qed.

Lemma split_two_one_piece (s : str) :
  has_double_space s = false -> split_from [32; 32]%N 0 s = [s].
Proof.
  induction s as [|c s IH]; [reflexivity|].
  cbn [has_double_space]. intros H.
  apply orb_false_iff in H. destruct H as [Hc Hs].
  rewrite split_two_other by (now rewrite starts_with_space).
  now rewrite IH.
Qed.

Lemma clean_text_of_tidy (s : str) : tidy s -> clean_text s = s.
Proof.
  intros (H1 & H2 & H3 & H4).
  destruct s as [|c s]; [reflexivity|].
  unfold clean_text, splitlines, split.
  rewrite splitlines_from_one_line by exact H4.
  cbn [rev app map flat_map]. rewrite (strip_id _ H1 H2).
  rewrite two_spaces, split_two_one_piece by exact H3.
  cbn [map app]. rewrite (strip_id _ H1 H2). reflexivity.
Qed.

(** X12. Cleaning is idempotent: a text that has been cleaned is left as it
    is by a second cleaning. *)
Theorem clean_text_idempotent (text : str) :
  clean_text (clean_text text) = clean_text text.
Proof.
  apply clean_text_of_tidy.
  destruct (join_tidy _ (clean_text_chunks text)) as [H _]. exact H.
Qed.

(** X13. A text made only of whitespace, line breaks included, is cleaned
    to the empty string. *)
Theorem clean_text_whitespace (text : str) :
  Forall (fun c => isspace c = true) text -> clean_text text = [].
Proof.
  intros H. unfold clean_text, splitlines.
  pose proof (splitlines_from_Forall (fun c => isspace c = true) text []
                (Forall_nil _) H) as Hlines.
  replace (filter nonempty _) with (@nil str); [reflexivity|].
  symmetry.
  induction Hlines as [|line lines Hline _ IH]; [reflexivity|].
  cbn [map flat_map]. rewrite filter_app, IH, app_nil_r.
  rewrite strip_all_space; [reflexivity|].
  revert Hline. apply Forall_impl. tauto.
Qed.

Lemma clean_text_whitespace_witness :
  clean_text [32; 9; 10; 0x3000; 13; 10; 32; 32; 32]%N = [].
Proof.
  apply clean_text_whitespace.
  repeat constructor.
Defined.

(** ** The charts for a negative top_n *)

Lemma head_negative (n : Z) (df : DataFrame) :
  (n < 0)%Z -> head n df = firstn (length df - Z.to_nat (- n)) df.
Proof.
  intros Hn. unfold head.
  now replace (0 <=? n)%Z with false by (symmetry; apply Z.leb_gt; lia).
Qed.

(** X14. For a negative [top_n], which the chart constructors accept, every
    chart is given the terms and the values of the table without its last
    [-top_n] rows, in the order of the table (and nothing when the table
    has no more rows than that). *)
Theorem chart_view_negative_top_n
  (chart_type : chart_type) (df : DataFrame) (top_n : Z) :
  (top_n < 0)%Z ->
  NoDup (words_column df) ->
  chart_words (make_chart chart_type df top_n) =
    words_column (firstn (length df - Z.to_nat (- top_n)) df) /\
  chart_values (make_chart chart_type df top_n) =
    freq_column (firstn (length df - Z.to_nat (- top_n)) df).
Proof.
  intros Hn Hdf. rewrite <- (head_negative _ _ Hn).
  assert (Hb : view_bound chart_type top_n = top_n)
    by (destruct chart_type; simpl; lia).
  pose proof (make_chart_columns chart_type df top_n Hdf) as H.
  rewrite Hb in H. exact H.
Qed.

Lemma chart_view_negative_top_n_witness :
  chart_words
    (make_chart pie
       [(lit "数据", 3%Z); (lit "分析", 2%Z); (lit "图表", 1%Z)] (-1)) =
    words_column
      (firstn (3 - Z.to_nat (- (-1)))
         [(lit "数据", 3%Z); (lit "分析", 2%Z); (lit "图表", 1%Z)]) /\
  chart_values
    (make_chart pie
       [(lit "数据", 3%Z); (lit "分析", 2%Z); (lit "图表", 1%Z)] (-1)) =
    freq_column
      (firstn (3 - Z.to_nat (- (-1)))
         [(lit "数据", 3%Z); (lit "分析", 2%Z); (lit "图表", 1%Z)]).
Proof.
  apply (chart_view_negative_top_n pie
           [(lit "数据", 3%Z); (lit "分析", 2%Z); (lit "图表", 1%Z)] (-1)).
  - lia.
  - vm_compute. repeat constructor; simpl; intuition discriminate.
Defined.

(** ** The table and the order of the tokens *)

Lemma count_word_perm (w : str) (a b : list str) :
  Permutation a b -> count_word w a = count_word w b.
Proof.
  induction 1 as [|x a b _ IH|x y a|a b c _ IH1 _ IH2]; simpl; lia.
Qed.

Lemma NoDup_rows (c : list entry) : NoDup (map fst c) -> NoDup c.
Proof. apply NoDup_map_inv. Qed.

(** X15. The rows of the table depend only on how often each filtered token
    occurs, not on where: two runs whose filtered tokens are the same up to
    order give tables with the same rows. *)
Theorem process_text_token_order
  (lcut lcut' : str -> list str) (sort_values : column -> bool -> DataFrame -> DataFrame)
  (text text' : str) (min_freq : Z) :
  sort_contract (sort_values by_freq false) ->
  Permutation (filtered_words lcut text) (filtered_words lcut' text') ->
  Permutation (process_text lcut sort_values text min_freq)
              (process_text lcut' sort_values text' min_freq).
Proof.
  intros Hsort Hperm. unfold process_text, process_text_with.
  fold (filtered_words_with lcut stop_words text).
  fold (filtered_words_with lcut' stop_words text').
  fold (filtered_words lcut text). fold (filtered_words lcut' text').
  set (a := filtered_words lcut text) in *.
  set (b := filtered_words lcut' text') in *.
  destruct (Hsort (drop_low_freq min_freq (Counter a))) as [Ha _].
  destruct (Hsort (drop_low_freq min_freq (Counter b))) as [Hb _].
  rewrite <- Ha, <- Hb. unfold drop_low_freq.
  apply NoDup_Permutation.
  - apply NoDup_rows, NoDup_keys_filter, Counter_NoDup.
  - apply NoDup_rows, NoDup_keys_filter, Counter_NoDup.
  - intros [w n]. rewrite !filter_In, !In_Counter.
    now rewrite (count_word_perm w a b Hperm).
Qed.

Lemma process_text_token_order_witness :
  Permutation
    (process_text lcut_pairs stable_sort_values (lit "数据分析数据可视") 1)
    (process_text lcut_pairs stable_sort_values (lit "可视数据分析数据") 1).
Proof.
  apply (process_text_token_order lcut_pairs lcut_pairs stable_sort_values
           (lit "数据分析数据可视") (lit "可视数据分析数据") 1
           stable_sort_values_contract).
  vm_compute.
  apply Permutation_sym.
  apply (Permutation_cons_app [_; _; _] [] _ (Permutation_refl _)).
Defined.

(** ** The argsort on arrays of equal keys *)

Example argsort_run :
  argsort Z Z.ltb 0%Z (repeat 1%Z 18) =
  Some [0; 15; 14; 13; 12; 11; 10; 9; 8; 7; 6; 5; 4; 3; 2; 1; 16; 17]%nat /\
  nargsort Z.ltb 0%Z (repeat 1%Z 18) false =
  Some [0; 1; 16; 15; 14; 13; 12; 11; 10; 9; 8; 7; 6; 5; 4; 3; 2; 17]%nat /\
  nargsort Z.ltb 0%Z [3;1;2;1;2;1;1;1;1;1;1;1;1;1;1;1;1;1;1;1]%Z false =
  Some [0; 2; 4; 11; 18; 17; 16; 15; 14; 13; 12; 10; 1; 9; 8; 7; 6; 5; 3; 19]%nat.
Proof. repeat split; vm_compute; reflexivity. Qed.
